(** * babyjson: the recursive-descent JSON reader of [json_parser.cpp]

    A shallow embedding of [JSONObject], the scalar helpers
    ([try_parse_int], [try_parse_double], [unescaped_char]), the number
    pattern, [parse] and [JSONObject::print], followed by the properties
    of the reader.

    Conventions of the embedding.
    - A [std::string] is a [list ascii]; [json[i]] is [char_at json i],
      which yields NUL at [i = size] as [operator[]] does.
    - [size_t] offsets are [nat]; no buffer is long enough to wrap them.
    - [int] is 32 bits and [long] 64 bits (LP64); both are [Z] with the
      saturation of [strtol] and the narrowing to [int] written out.
    - A [double] is kept as the decimal text [strtod] consumed; its
      binary64 rounding is not represented, so two [JDouble] payloads
      that are equal here are equal in the program, and nothing below
      relies on two of them being different.
    - [parse] recurses and its array and object loops need not terminate,
      so [parse] takes fuel: [None] means the fuel ran out. *)

From Stdlib Require Import Ascii String List ZArith Bool Arith Lia.
Import ListNotations.

Local Open Scope char_scope.
Local Open Scope nat_scope.

(** ** Characters and text *)

Definition text := list ascii.

Definition chars (s : string) : text := list_ascii_of_string s.

Definition NUL : ascii := "000".

(** The double quote. *)
Definition dquote : ascii := "034".

Definition char_at (s : text) (i : nat) : ascii := nth i s NUL.

Definition code (c : ascii) : nat := nat_of_ascii c.

(** [isspace] in the "C" locale: space and the controls 9..13. *)
Definition isspace (c : ascii) : bool :=
  (code c =? 32) || ((9 <=? code c) && (code c <=? 13)).

Definition isdigit (c : ascii) : bool :=
  (48 <=? code c) && (code c <=? 57).

Definition is_sign (c : ascii) : bool :=
  Ascii.eqb c "+" || Ascii.eqb c "-".

Definition is_exp_mark (c : ascii) : bool :=
  Ascii.eqb c "e" || Ascii.eqb c "E".

Fixpoint text_eqb (a b : text) : bool :=
  match a, b with
  | [], [] => true
  | x :: a', y :: b' => Ascii.eqb x y && text_eqb a' b'
  | _, _ => false
  end.

(** Buffers that hold double quotes are written with apostrophes:
    [json_text s] is the text of [s] with a double quote in place of
    every apostrophe. *)
Definition json_text (s : string) : text :=
  map (fun c => if Ascii.eqb c "'" then dquote else c) (chars s).

(** ** The value model *)

Inductive JSONType := TNull | TBool | TInt | TDouble | TString | TList | TDict.

Definition double := text.

Unset Elimination Schemes.
Inductive JSONObject : Type :=
| JNull
| JBool (boolVal : bool)
| JInt (intVal : Z)
| JDouble (doubleVal : double)
| JString (strVal : text)
| JList (listVal : list JSONObject)
| JDict (dictVal : list (text * JSONObject)).
Set Elimination Schemes.

Definition type_of (o : JSONObject) : JSONType :=
  match o with
  | JNull => TNull
  | JBool _ => TBool
  | JInt _ => TInt
  | JDouble _ => TDouble
  | JString _ => TString
  | JList _ => TList
  | JDict _ => TDict
  end.

(** Induction on a value, with the property assumed of every element
    of a list and of every value of a dictionary. *)
Section JSONObject_induction.

Variable P : JSONObject -> Prop.
Hypothesis case_null : P JNull.
Hypothesis case_bool : forall b, P (JBool b).
Hypothesis case_int : forall i, P (JInt i).
Hypothesis case_double : forall d, P (JDouble d).
Hypothesis case_string : forall s, P (JString s).
Hypothesis case_list : forall l, Forall P l -> P (JList l).
Hypothesis case_dict :
  forall d, Forall (fun kv => P (snd kv)) d -> P (JDict d).

Fixpoint JSONObject_ind (o : JSONObject) : P o :=
  match o with
  | JNull => case_null
  | JBool b => case_bool b
  | JInt i => case_int i
  | JDouble d => case_double d
  | JString s => case_string s
  | JList l =>
      case_list l
        ((fix elements (l : list JSONObject) : Forall P l :=
            match l with
            | [] => Forall_nil P
            | x :: l' => Forall_cons x (JSONObject_ind x) (elements l')
            end) l)
  | JDict d =>
      case_dict d
        ((fix entries (d : list (text * JSONObject))
            : Forall (fun kv => P (snd kv)) d :=
            match d with
            | [] => Forall_nil _
            | (k, v) :: d' =>
                Forall_cons (k, v) (JSONObject_ind v) (entries d')
            end) d)
  end.

End JSONObject_induction.

(** [std::unordered_map<std::string, JSONObject>]: keys are unique. The map
    is kept as an association list in insertion order; [res[k] = v]
    overwrites the entry of [k] where it stands, or adds one. The order
    in which the program iterates a map is unspecified; insertion order
    stands for it in [print]. *)
Definition dict := list (text * JSONObject).

Fixpoint dict_set (k : text) (v : JSONObject) (d : dict) : dict :=
  match d with
  | [] => [(k, v)]
  | (k', v') :: d' =>
      if text_eqb k k' then (k, v) :: d' else (k', v') :: dict_set k v d'
  end.

Fixpoint dict_get (k : text) (d : dict) : option JSONObject :=
  match d with
  | [] => None
  | (k', v') :: d' => if text_eqb k k' then Some v' else dict_get k d'
  end.

(** The assignments [res[k] = v] of a list of pairs, made in order. *)
Definition assign_all (pairs : list (text * JSONObject)) (res : dict) : dict :=
  fold_left (fun acc kv => dict_set (fst kv) (snd kv) acc) pairs res.


(** ** Scalar helpers *)

Definition LONG_MAX : Z := 9223372036854775807.
Definition LONG_MIN : Z := -9223372036854775808.

Definition digit_val (c : ascii) : Z := Z.of_nat (code c - 48).

Definition all_space (s : text) : bool := forallb isspace s.

Definition all_digits (s : text) : bool := forallb isdigit s.

(** Length of the longest run of decimal digits at the head of [s]. *)
Fixpoint span_digits (s : text) : nat :=
  match s with
  | c :: t => if isdigit c then S (span_digits t) else 0
  | [] => 0
  end.

Fixpoint span_space (s : text) : nat :=
  match s with
  | c :: t => if isspace c then S (span_space t) else 0
  | [] => 0
  end.

(** Value of a run of digits, read left to right from [acc]. *)
Fixpoint digits_value (acc : Z) (s : text) : Z :=
  match s with
  | c :: t => if isdigit c then digits_value (10 * acc + digit_val c)%Z t else acc
  | [] => acc
  end.

Definition sign_len (s : text) : nat :=
  match s with
  | c :: _ => if is_sign c then 1 else 0
  | [] => 0
  end.

Definition negative (s : text) : bool :=
  match s with
  | c :: _ => Ascii.eqb c "-"
  | [] => false
  end.

Definition clamp_long (z : Z) : Z :=
  if (LONG_MAX <? z)%Z then LONG_MAX
  else if (z <? LONG_MIN)%Z then LONG_MIN else z.

(** [strtol(str, &end, 10)]: the value and the offset of [end]. White
    space, then an optional sign, then digits; with no digit nothing is
    converted and [end] is the start of the text. Out-of-range values
    saturate. *)
Definition strtol (str : text) : Z * nat :=
  let w := span_space str in
  let s1 := skipn w str in
  let k := sign_len s1 in
  let s2 := skipn k s1 in
  let n := span_digits s2 in
  if n =? 0 then (0%Z, 0)
  else
    let m := digits_value 0 s2 in
    (clamp_long (if negative s1 then - m else m)%Z, w + k + n).

(** Narrowing of a [long] to [int]: reduction modulo 2^32 into the
    signed range. *)
Definition to_int (z : Z) : Z :=
  ((z + 2147483648) mod 4294967296 - 2147483648)%Z.

(** [try_parse_int]: the flag [*end == 0] and the [int] stored. *)
Definition try_parse_int (str : text) : bool * Z :=
  let '(v, e) := strtol str in
  (Ascii.eqb (char_at str e) NUL, to_int v).

(** Length of a point and the digits after it at the head of [s]; 0 when
    [s] does not begin with a point. *)
Definition point_len (s : text) : nat :=
  match s with
  | c :: t => if Ascii.eqb c "." then S (span_digits t) else 0
  | [] => 0
  end.

(** Length of an exponent at the head of [s]: 'e' or 'E', an optional
    sign and at least one digit; 0 when there is none. *)
Definition exp_len (s : text) : nat :=
  match s with
  | c :: t =>
      if is_exp_mark c then
        let ks := sign_len t in
        let d := span_digits (skipn ks t) in
        if d =? 0 then 0 else 1 + ks + d
      else 0
  | [] => 0
  end.

(** Offset of [end] after [strtod(str, &end)] on decimal text: white space,
    optional sign, digits with an optional point (at least one digit in
    all), then an optional exponent that needs at least one digit. The
    hexadecimal and the "inf"/"nan" forms are left out: [parse] hands
    [strtod] only text made of signs, digits, '.', 'e' and 'E'. *)
Definition strtod_end (str : text) : nat :=
  let w := span_space str in
  let s1 := skipn w str in
  let k := sign_len s1 in
  let s2 := skipn k s1 in
  let n := span_digits s2 in
  let s3 := skipn n s2 in
  let f := point_len s3 in
  let mant_digits := n + (f - 1) in
  if mant_digits =? 0 then 0
  else w + k + n + f + exp_len (skipn f s3).

(** [try_parse_double]: the flag [*end == 0] and the value, kept as the
    text that was converted. *)
Definition try_parse_double (str : text) : bool * double :=
  let e := strtod_end str in
  (Ascii.eqb (char_at str e) NUL, firstn e str).

Definition unescaped_char (c : ascii) : ascii :=
  if Ascii.eqb c "n" then "010"
  else if Ascii.eqb c "r" then "013"
  else if Ascii.eqb c "0" then "000"
  else if Ascii.eqb c "t" then "009"
  else if Ascii.eqb c "v" then "011"
  else if Ascii.eqb c "f" then "012"
  else if Ascii.eqb c "b" then "008"
  else if Ascii.eqb c "a" then "007"
  else c.

(** ** The number pattern

    The pattern [num_re]: an optional sign, one or more digits, an
    optional group made of '.' and any number of digits, and an optional
    group made of 'e' or 'E', an optional sign and one or more digits.
    Under the ECMAScript rules of [std::regex] every quantifier is
    greedy, and an optional group that cannot match is skipped.
    [num_re_match s] is the length of the match that starts at the head
    of [s]. *)
Definition num_re_match (s : text) : option nat :=
  let k := sign_len s in
  let s1 := skipn k s in
  let n := span_digits s1 in
  if n =? 0 then None
  else
    let s2 := skipn n s1 in
    let f := point_len s2 in
    Some (k + n + f + exp_len (skipn f s2)).

(** [std::regex_search] over [s]: the match at the leftmost position that
    has one. Only [match.str()] is used by the caller, so the text of the
    match is returned and its position is dropped. *)
Fixpoint regex_search (s : text) : option text :=
  match num_re_match s with
  | Some n => Some (firstn n s)
  | None =>
      match s with
      | [] => None
      | _ :: t => regex_search t
      end
  end.

(** ** parse *)

(** The leading [while (start < json.size() && isspace(json[start]))]. *)
Definition skip_space (json : text) (start : nat) : nat :=
  start + span_space (skipn start json).

(** The number branch; [None] when control leaves the branch without
    returning. *)
Definition number_branch (json : text) (start : nat) : option (JSONObject * nat) :=
  match regex_search (skipn start json) with
  | Some str =>
      let '(is_int, intValue) := try_parse_int str in
      if is_int then Some (JInt intValue, start + length str)
      else
        let '(is_double, doubleValue) := try_parse_double str in
        if is_double then Some (JDouble doubleValue, start + length str)
        else None
  | None => None
  end.

(** The string loop over the unread text [s = json[i..]], with [str] the
    characters gathered so far; [None] when [i] reaches the end of the
    buffer without a closing quote. A backslash that is the last
    character of the buffer is dropped. *)
Fixpoint string_loop (s : text) (str : text) (i : nat) : option (JSONObject * nat) :=
  match s with
  | [] => None
  | c :: t =>
      if Ascii.eqb c "\" then
        match t with
        | [] => None
        | d :: t' => string_loop t' (str ++ [unescaped_char d]) (i + 2)
        end
      else if Ascii.eqb c dquote then Some (JString str, i + 1)
      else string_loop t (str ++ [c]) (i + 1)
  end.

Definition string_branch (json : text) (start : nat) : option (JSONObject * nat) :=
  string_loop (skipn (start + 1) json) [] (start + 1).

(** How a container loop ends: with a [return], or by running off the end
    of the buffer, after which [parse] goes on to the code below it. *)
Inductive flow :=
| Return (r : JSONObject * nat)
| Exit.

(** [o.type == JSONType::String]. *)
Definition is_string (o : JSONObject) : bool :=
  match type_of o with TString => true | _ => false end.

Definition strVal_of (o : JSONObject) : text :=
  match o with JString s => s | _ => [] end.

Fixpoint parse (fuel : nat) (json : text) (start : nat) {struct fuel}
  : option (JSONObject * nat) :=
  match fuel with
  | 0 => None
  | S fuel' =>
      let start := skip_space json start in
      if length json <=? start then Some (JNull, start)
      else
        let first := char_at json start in
        match (if isdigit first || Ascii.eqb first "-" || Ascii.eqb first "+"
               then number_branch json start else None) with
        | Some r => Some r
        | None =>
        match (if Ascii.eqb first dquote then string_branch json start else None) with
        | Some r => Some r
        | None =>
        match (if Ascii.eqb first "[" then array_loop fuel' json [] (start + 1)
               else Some Exit) with
        | None => None
        | Some (Return r) => Some r
        | Some Exit =>
        match (if Ascii.eqb first "{" then object_loop fuel' json [] (start + 1)
               else Some Exit) with
        | None => None
        | Some (Return r) => Some r
        | Some Exit => Some (JNull, start)
        end end end end
  end

with array_loop (fuel : nat) (json : text) (res : list JSONObject) (i : nat)
  {struct fuel} : option flow :=
  match fuel with
  | 0 => None
  | S fuel' =>
      if i <? length json then
        if Ascii.eqb (char_at json i) "]" then Some (Return (JList res, i + 1))
        else
          match parse fuel' json i with
          | None => None
          | Some (obj, next) =>
              let res := res ++ [obj] in
              let i := next in
              let i := if Ascii.eqb (char_at json i) "," then i + 1 else i in
              array_loop fuel' json res i
          end
      else Some Exit
  end

with object_loop (fuel : nat) (json : text) (res : dict) (i : nat)
  {struct fuel} : option flow :=
  match fuel with
  | 0 => None
  | S fuel' =>
      if i <? length json then
        if Ascii.eqb (char_at json i) "}" then Some (Return (JDict res, i + 1))
        else
          match parse fuel' json i with
          | None => None
          | Some (keyobj, keyeaten) =>
              let i := keyeaten in
              let i := if Ascii.eqb (char_at json i) ":" then i + 1 else i in
              match parse fuel' json i with
              | None => None
              | Some (valobj, valeaten) =>
                  let i := valeaten in
                  let res := if is_string keyobj
                             then dict_set (strVal_of keyobj) valobj res
                             else res in
                  let i := if Ascii.eqb (char_at json i) "," then i + 1 else i in
                  object_loop fuel' json res i
              end
          end
      else Some Exit
  end.

(** [parse json start] returns [(v, next)]. *)
Definition returns (json : text) (start : nat) (v : JSONObject) (next : nat) : Prop :=
  exists fuel, parse fuel json start = Some (v, next).

(** [parse json start] never returns. *)
Definition diverges (json : text) (start : nat) : Prop :=
  forall fuel, parse fuel json start = None.

(** The text after a number does not carry the number on. *)
Definition closes (rest : text) : bool :=
  match rest with
  | [] => true
  | c :: _ => negb (isdigit c || Ascii.eqb c "." || is_exp_mark c)
  end.

(** ** print

    [std::cout << intVal] writes the decimal digits of the [int], with a
    leading '-' when it is negative. How the stream writes a [double]
    (six significant digits by default) depends on the binary64 value,
    which is not represented: [print] takes that conversion as
    [put_double]. *)

Definition digit_char (n : Z) : ascii := ascii_of_nat (48 + Z.to_nat (n mod 10)).

Fixpoint digits_of (fuel : nat) (n : Z) (acc : text) : text :=
  let acc' := digit_char n :: acc in
  match fuel with
  | 0 => acc'
  | S fuel' => if (n <? 10)%Z then acc' else digits_of fuel' (n / 10) acc'
  end.

Definition print_nat (n : Z) : text :=
  digits_of (Z.to_nat (Z.log2 n)) n [].

Definition print_int (i : Z) : text :=
  if (i <? 0)%Z then "-" :: print_nat (- i) else print_nat i.

(** The items of a container, with [", "] after each one but the last. *)
Fixpoint join_items (items : list text) : text :=
  match items with
  | [] => []
  | x :: rest =>
      match rest with
      | [] => x
      | _ :: _ => x ++ chars ", " ++ join_items rest
      end
  end.

Section Print.

Variable put_double : double -> text.

Fixpoint print (o : JSONObject) : text :=
  match o with
  | JNull => chars "null"
  | JBool b => if b then chars "true" else chars "false"
  | JInt i => print_int i
  | JDouble d => put_double d
  | JString s => dquote :: s ++ [dquote]
  | JList l => "[" :: join_items (map print l) ++ ["]"]
  | JDict d =>
      "{" :: join_items
               (map (fun kv => dquote :: fst kv ++ dquote :: chars ": " ++ print (snd kv)) d)
          ++ ["}"]
  end.

(** One pair of a Dict as [print] writes it. *)
Definition print_entry (kv : text * JSONObject) : text :=
  dquote :: fst kv ++ dquote :: chars ": " ++ print (snd kv).

(** An object literal as [print] lays one out, from any list of pairs:
    the keys may repeat. *)
Definition object_literal (pairs : list (text * JSONObject)) : text :=
  "{" :: join_items (map print_entry pairs) ++ ["}"].

(** Wherever the text of [v] stands, after white space and before text
    that does not carry a number on, [parse] returns [v] and leaves
    the cursor after the text of [v]. *)
Definition reparses (v : JSONObject) : Prop :=
  forall json i ws rest,
    all_space ws = true -> closes rest = true ->
    skipn i json = ws ++ print v ++ rest ->
    exists fuel,
      parse fuel json i = Some (v, i + length ws + length (print v)).

End Print.

(** ** Vocabulary of the statements *)

(** The characters on which [parse] enters one of its four branches. *)
Definition starts_value (c : ascii) : bool :=
  isdigit c || Ascii.eqb c "-" || Ascii.eqb c "+"
  || Ascii.eqb c dquote || Ascii.eqb c "[" || Ascii.eqb c "{".


(** The grammar of the number pattern: an optional sign, digits, an
    optional fraction and an optional exponent. *)
Definition optional (part : text -> Prop) (s : text) : Prop :=
  s = [] \/ part s.

Definition sign (s : text) : Prop :=
  exists c, is_sign c = true /\ s = [c].

Definition fraction (s : text) : Prop :=
  exists ds, all_digits ds = true /\ s = "." :: ds.

Definition exponent (s : text) : Prop :=
  exists c sg ds,
    is_exp_mark c = true /\ optional sign sg
    /\ all_digits ds = true /\ ds <> [] /\ s = c :: sg ++ ds.

Inductive number_literal : text -> Prop :=
| NumberLiteral sg ds f e :
    optional sign sg ->
    all_digits ds = true -> ds <> [] ->
    optional fraction f ->
    optional exponent e ->
    number_literal (sg ++ ds ++ f ++ e).

Definition prefix_of (a s : text) : Prop := exists t, s = a ++ t.

(** [lit] is the longest number literal at the head of [s]. *)
Definition longest_literal (lit s : text) : Prop :=
  number_literal lit /\ prefix_of lit s
  /\ forall lit', number_literal lit' -> prefix_of lit' s ->
                 length lit' <= length lit.

(** The literal has a point or an exponent mark. *)
Definition has_point_or_exponent (lit : text) : bool :=
  existsb (fun c => Ascii.eqb c "." || is_exp_mark c) lit.

(** Text with neither a double quote nor a backslash: [print] writes it
    between quotes as it is, and the string loop reads it back as it is. *)
Definition plain_text (s : text) : bool :=
  forallb (fun c => negb (Ascii.eqb c dquote || Ascii.eqb c "\")) s.

Fixpoint unique_keys (ks : list text) : bool :=
  match ks with
  | [] => true
  | k :: ks' => negb (existsb (text_eqb k) ks') && unique_keys ks'
  end.

Definition INT_MAX : Z := 2147483647.
Definition INT_MIN : Z := -2147483648.

(** The trees made of Int values (an [int] holds them), String values of
    plain text, Lists of such trees, and Dicts with unique keys of plain
    text and such trees as values. No Null, Bool or Double occurs in
    them. *)
Fixpoint plain_tree (o : JSONObject) : bool :=
  match o with
  | JInt i => (INT_MIN <=? i)%Z && (i <=? INT_MAX)%Z
  | JString s => plain_text s
  | JList l => forallb plain_tree l
  | JDict d =>
      unique_keys (map fst d)
      && forallb (fun kv => plain_text (fst kv) && plain_tree (snd kv)) d
  | JNull | JBool _ | JDouble _ => false
  end.

(** What follows an opening quote when the buffer ends before an
    unescaped closing quote: ordinary characters and escape pairs, and
    possibly a lone backslash at the very end. *)
Inductive unterminated : text -> Prop :=
| unterminated_end : unterminated []
| unterminated_backslash : unterminated ["\"]
| unterminated_escape d s :
    unterminated s -> unterminated ("\" :: d :: s)
| unterminated_char c s :
    Ascii.eqb c "\" = false -> Ascii.eqb c dquote = false ->
    unterminated s -> unterminated (c :: s).

(** ** Vocabulary of the further properties *)

(** A result of [parse], and the way a loop ends, with the cursor moved
    [n] places on. *)
Definition shift (n : nat) (r : JSONObject * nat) : JSONObject * nat :=
  (fst r, n + snd r).

Definition shift_flow (n : nat) (f : flow) : flow :=
  match f with
  | Return r => Return (shift n r)
  | Exit => Exit
  end.

(** The trees that [parse] builds: no Bool at any depth, every Int
    within the range of [int], and no key twice in a Dict. *)
Fixpoint parsed_shape (o : JSONObject) : bool :=
  match o with
  | JNull => true
  | JBool _ => false
  | JInt i => (INT_MIN <=? i)%Z && (i <=? INT_MAX)%Z
  | JDouble _ => true
  | JString _ => true
  | JList l => forallb parsed_shape l
  | JDict d =>
      unique_keys (map fst d) && forallb (fun kv => parsed_shape (snd kv)) d
  end.

Definition no_digit (s : text) : bool := forallb (fun c => negb (isdigit c)) s.

(** What stands between the quotes of a string literal: characters
    written as they are, and escapes, a backslash and one character. *)
Inductive piece :=
| Plain (c : ascii)
| Escape (d : ascii).

Definition written (p : piece) : text :=
  match p with
  | Plain c => [c]
  | Escape d => ["\"; d]
  end.

Definition decoded (p : piece) : ascii :=
  match p with
  | Plain c => c
  | Escape d => unescaped_char d
  end.

(** A character written as it is is neither a quote nor a backslash. *)
Definition proper (p : piece) : bool :=
  match p with
  | Plain c => negb (Ascii.eqb c dquote || Ascii.eqb c "\")
  | Escape _ => true
  end.

(** *** Layouts of arrays and objects

    An array is laid out as items, each with white space before its value
    and possibly a comma right after it; an object as entries, each with
    white space before the key, possibly a colon right after the key,
    white space before the value and possibly a comma right after it. *)

Record item := {
  item_space : text;
  item_value : JSONObject;
  item_comma : bool
}.

Record entry := {
  entry_key_space : text;
  entry_key : text;
  entry_colon : bool;
  entry_value_space : text;
  entry_value : JSONObject;
  entry_comma : bool
}.

Definition separator (present : bool) (c : ascii) : text :=
  if present then [c] else [].

(** The text after a value that no comma follows: it neither carries a
    number on nor begins with a comma. *)
Definition ends_value (following : text) : bool :=
  match following with
  | [] => true
  | c :: _ =>
      negb (isdigit c || Ascii.eqb c "." || is_exp_mark c || Ascii.eqb c ",")
  end.

Section Layout.

Variable put_double : double -> text.

Definition item_text (it : item) : text :=
  item_space it ++ print put_double (item_value it)
  ++ separator (item_comma it) ",".

Definition items_text (items : list item) : text :=
  flat_map item_text items.

Definition entry_text (e : entry) : text :=
  entry_key_space e ++ dquote :: entry_key e ++ dquote
  :: separator (entry_colon e) ":"
  ++ entry_value_space e ++ print put_double (entry_value e)
  ++ separator (entry_comma e) ",".

Definition entries_text (entries : list entry) : text :=
  flat_map entry_text entries.

(** The items are white space and plain trees, and every value that no
    comma follows is ended by what comes next, [tail] after the last. *)
Fixpoint well_laid_items (items : list item) (tail : text) : bool :=
  match items with
  | [] => true
  | it :: items' =>
      all_space (item_space it) && plain_tree (item_value it)
      && (item_comma it || ends_value (items_text items' ++ tail))
      && well_laid_items items' tail
  end.

Fixpoint well_laid_entries (entries : list entry) (tail : text) : bool :=
  match entries with
  | [] => true
  | e :: entries' =>
      all_space (entry_key_space e) && plain_text (entry_key e)
      && all_space (entry_value_space e) && plain_tree (entry_value e)
      && (entry_comma e || ends_value (entries_text entries' ++ tail))
      && well_laid_entries entries' tail
  end.

End Layout.

Definition entry_pair (e : entry) : text * JSONObject :=
  (entry_key e, entry_value e).

(** ** Unfolding equations *)

Lemma parse_S fuel json start :
  parse (S fuel) json start =
  let start := skip_space json start in
  if length json <=? start then Some (JNull, start)
  else
    let first := char_at json start in
    match (if isdigit first || Ascii.eqb first "-" || Ascii.eqb first "+"
           then number_branch json start else None) with
    | Some r => Some r
    | None =>
    match (if Ascii.eqb first dquote then string_branch json start else None) with
    | Some r => Some r
    | None =>
    match (if Ascii.eqb first "[" then array_loop fuel json [] (start + 1)
           else Some Exit) with
    | None => None
    | Some (Return r) => Some r
    | Some Exit =>
    match (if Ascii.eqb first "{" then object_loop fuel json [] (start + 1)
           else Some Exit) with
    | None => None
    | Some (Return r) => Some r
    | Some Exit => Some (JNull, start)
    end end end end.
Proof. reflexivity. Qed.

Lemma array_loop_S fuel json res i :
  array_loop (S fuel) json res i =
  if i <? length json then
    if Ascii.eqb (char_at json i) "]" then Some (Return (JList res, i + 1))
    else
      match parse fuel json i with
      | None => None
      | Some (obj, next) =>
          array_loop fuel json (res ++ [obj])
            (if Ascii.eqb (char_at json next) "," then next + 1 else next)
      end
  else Some Exit.
Proof. reflexivity. Qed.

Lemma object_loop_S fuel json res i :
  object_loop (S fuel) json res i =
  if i <? length json then
    if Ascii.eqb (char_at json i) "}" then Some (Return (JDict res, i + 1))
    else
      match parse fuel json i with
      | None => None
      | Some (keyobj, keyeaten) =>
          match parse fuel json
                  (if Ascii.eqb (char_at json keyeaten) ":"
                   then keyeaten + 1 else keyeaten) with
          | None => None
          | Some (valobj, valeaten) =>
              object_loop fuel json
                (if is_string keyobj
                 then dict_set (strVal_of keyobj) valobj res else res)
                (if Ascii.eqb (char_at json valeaten) ","
                 then valeaten + 1 else valeaten)
          end
      end
  else Some Exit.
Proof. reflexivity. Qed.

(** ** Text and offsets *)

Lemma skipn_app_length (pre s : text) : skipn (length pre) (pre ++ s) = s.
Proof. induction pre; simpl; auto. Qed.

Lemma char_at_app (pre s : text) i :
  char_at (pre ++ s) (length pre + i) = char_at s i.
Proof.
  unfold char_at. rewrite app_nth2 by lia. f_equal. lia.
Qed.

Lemma char_at_app_head (pre : text) c s :
  char_at (pre ++ c :: s) (length pre) = c.
Proof.
  replace (length pre) with (length pre + 0) by lia.
  rewrite char_at_app. reflexivity.
Qed.

Lemma span_space_app ws s :
  all_space ws = true ->
  span_space (ws ++ s) = length ws + span_space s.
Proof.
  induction ws as [|c ws IH]; simpl; intros H; auto.
  apply andb_prop in H. destruct H as [Hc Hws].
  rewrite Hc, IH; auto.
Qed.

Lemma span_space_all ws : all_space ws = true -> span_space ws = length ws.
Proof.
  intros H. rewrite <- (app_nil_r ws) at 1.
  rewrite span_space_app by assumption. simpl. lia.
Qed.

Lemma span_space_head c s : isspace c = false -> span_space (c :: s) = 0.
Proof. intros H. simpl. rewrite H. reflexivity. Qed.

Lemma span_space_le s : span_space s <= length s.
Proof. induction s as [|c s IH]; simpl; auto. destruct (isspace c); simpl; lia. Qed.

Lemma skip_space_ge json start : start <= skip_space json start.
Proof. unfold skip_space. lia. Qed.

Lemma skip_space_past json start :
  length json <= start -> skip_space json start = start.
Proof.
  intros H. unfold skip_space. rewrite skipn_all2 by assumption. simpl. lia.
Qed.

Lemma skip_space_le json start :
  start <= length json -> skip_space json start <= length json.
Proof.
  intros H. unfold skip_space.
  pose proof (span_space_le (skipn start json)) as Hle.
  rewrite length_skipn in Hle. lia.
Qed.

(** After the skip, the cursor is at the end or on a character that
    is not white space. *)
Lemma skip_space_stops json start :
  skip_space json start < length json ->
  isspace (char_at json (skip_space json start)) = false.
Proof.
  unfold skip_space, char_at. revert start.
  induction json as [|c json IH]; intros start H.
  - simpl in H. lia.
  - destruct start as [|start].
    + simpl in *. destruct (isspace c) eqn:Hc.
      * specialize (IH 0). simpl in IH. apply IH. lia.
      * assumption.
    + simpl in *. apply IH. lia.
Qed.

Lemma skip_space_idem json start :
  skip_space json (skip_space json start) = skip_space json start.
Proof.
  destruct (Nat.lt_ge_cases (skip_space json start) (length json)) as [Hlt|Hge].
  - pose proof (skip_space_stops json start Hlt) as Hns.
    unfold skip_space at 1.
    assert (Hsk : exists c t, skipn (skip_space json start) json = c :: t
                              /\ c = char_at json (skip_space json start)).
    { remember (skip_space json start) as p eqn:Hp. clear Hp Hns.
      revert p Hlt. unfold char_at. induction json as [|a json IH]; intros p Hlt.
      - simpl in Hlt. lia.
      - destruct p as [|p]; simpl.
        + eauto.
        + apply IH. simpl in Hlt. lia. }
    destruct Hsk as (c & t & Hsk & Hc). rewrite Hsk. subst c.
    rewrite span_space_head by assumption. lia.
  - apply skip_space_past. assumption.
Qed.

Lemma skip_space_app pre ws s :
  all_space ws = true ->
  skip_space (pre ++ ws ++ s) (length pre) =
  length pre + length ws + span_space s.
Proof.
  intros H. unfold skip_space.
  rewrite skipn_app_length, span_space_app by assumption. lia.
Qed.

(** Case analysis on what a scalar branch of [parse] gives. *)
Ltac case_branch branch :=
  match goal with
  | |- context [if ?c then branch ?j ?p else None] =>
      destruct (if c then branch j p else None)
  end.

(** ** Fuel

    More fuel never changes a result, so [returns] is a function of the
    buffer and the offset. *)

Lemma fuel_step fuel :
  (forall json start r,
      parse fuel json start = Some r -> parse (S fuel) json start = Some r)
  /\ (forall json res i r,
      array_loop fuel json res i = Some r ->
      array_loop (S fuel) json res i = Some r)
  /\ (forall json res i r,
      object_loop fuel json res i = Some r ->
      object_loop (S fuel) json res i = Some r).
Proof.
  induction fuel as [|fuel (IHp & IHa & IHo)].
  - repeat split; intros; discriminate.
  - repeat split.
    + intros json start r. rewrite (parse_S (S fuel)), (parse_S fuel). cbv zeta.
      destruct (length json <=? skip_space json start); auto.
      case_branch number_branch; auto.
      case_branch string_branch; auto.
      destruct (Ascii.eqb _ "[").
      * destruct (array_loop fuel json [] _) as [fl|] eqn:Ea; [|discriminate].
        rewrite (IHa _ _ _ _ Ea). destruct fl; auto.
        destruct (Ascii.eqb _ "{"); auto.
        destruct (object_loop fuel json [] _) as [fl|] eqn:Eo; [|discriminate].
        rewrite (IHo _ _ _ _ Eo). auto.
      * destruct (Ascii.eqb _ "{"); auto.
        destruct (object_loop fuel json [] _) as [fl|] eqn:Eo; [|discriminate].
        rewrite (IHo _ _ _ _ Eo). auto.
    + intros json res i r. rewrite (array_loop_S (S fuel)), (array_loop_S fuel).
      destruct (i <? length json); auto.
      destruct (Ascii.eqb _ "]"); auto.
      destruct (parse fuel json i) as [[obj next]|] eqn:Ep; [|discriminate].
      rewrite (IHp _ _ _ Ep). apply IHa.
    + intros json res i r. rewrite (object_loop_S (S fuel)), (object_loop_S fuel).
      destruct (i <? length json); auto.
      destruct (Ascii.eqb _ "}"); auto.
      destruct (parse fuel json i) as [[keyobj keyeaten]|] eqn:Ek; [|discriminate].
      rewrite (IHp _ _ _ Ek). cbv beta iota.
      match goal with
      | |- match parse fuel json ?j with _ => _ end = _ -> _ =>
          destruct (parse fuel json j) as [[valobj valeaten]|] eqn:Ev;
          [|discriminate]
      end.
      rewrite (IHp _ _ _ Ev). apply IHo.
Qed.

Lemma parse_fuel_mono fuel fuel' json start r :
  fuel <= fuel' ->
  parse fuel json start = Some r -> parse fuel' json start = Some r.
Proof.
  induction 1 as [|m Hle IH]; auto.
  intros H. apply fuel_step. auto.
Qed.

Lemma array_loop_fuel_mono fuel fuel' json res i r :
  fuel <= fuel' ->
  array_loop fuel json res i = Some r -> array_loop fuel' json res i = Some r.
Proof.
  induction 1 as [|m Hle IH]; auto.
  intros H. apply fuel_step. auto.
Qed.

Lemma object_loop_fuel_mono fuel fuel' json res i r :
  fuel <= fuel' ->
  object_loop fuel json res i = Some r -> object_loop fuel' json res i = Some r.
Proof.
  induction 1 as [|m Hle IH]; auto.
  intros H. apply fuel_step. auto.
Qed.

Lemma returns_unique json start v n v' n' :
  returns json start v n -> returns json start v' n' -> v = v' /\ n = n'.
Proof.
  intros [f Hf] [f' Hf'].
  apply (parse_fuel_mono f (Nat.max f f')) in Hf; [|lia].
  apply (parse_fuel_mono f' (Nat.max f f')) in Hf'; [|lia].
  rewrite Hf in Hf'. injection Hf' as -> ->. auto.
Qed.

Lemma diverges_not_returns json start v n :
  diverges json start -> ~ returns json start v n.
Proof. intros Hd [f Hf]. rewrite Hd in Hf. discriminate. Qed.

(** ** Cursor bounds *)

Lemma regex_search_length s str :
  regex_search s = Some str -> length str <= length s.
Proof.
  induction s as [|c s IH].
  - intros H. compute in H. discriminate.
  - cbn [regex_search]. destruct (num_re_match (c :: s)) as [n|].
    + intros H. inversion H; subst. rewrite length_firstn. apply Nat.le_min_r.
    + intros H. apply IH in H. simpl. lia.
Qed.

Lemma number_branch_bounds json start v next :
  start <= length json ->
  number_branch json start = Some (v, next) ->
  start <= next <= length json.
Proof.
  intros Hs. unfold number_branch.
  destruct (regex_search (skipn start json)) as [str|] eqn:Hre; [|discriminate].
  apply regex_search_length in Hre. rewrite length_skipn in Hre.
  destruct (try_parse_int str) as [is_int intValue].
  destruct is_int.
  - intros H. inversion H; subst. lia.
  - destruct (try_parse_double str) as [is_double doubleValue].
    destruct is_double; [|discriminate].
    intros H. inversion H; subst. lia.
Qed.

Lemma string_loop_bounds s str i v next :
  string_loop s str i = Some (v, next) ->
  i < next <= i + length s.
Proof.
  assert (Hn : forall n s str i,
             length s <= n ->
             string_loop s str i = Some (v, next) ->
             i < next <= i + length s).
  { clear. induction n as [|n IH]; intros s str i Hlen.
    - destruct s; [discriminate|simpl in Hlen; lia].
    - destruct s as [|c t]; simpl; [discriminate|]. simpl in Hlen.
      destruct (Ascii.eqb c "\").
      + destruct t as [|d t']; [discriminate|]. simpl in Hlen.
        intros H. apply IH in H; simpl in *; lia.
      + destruct (Ascii.eqb c dquote).
        * intros H. inversion H; subst. lia.
        * intros H. apply IH in H; simpl in *; lia. }
  apply (Hn (length s)). lia.
Qed.

Lemma string_branch_bounds json start v next :
  start < length json ->
  string_branch json start = Some (v, next) ->
  start < next <= length json.
Proof.
  intros Hs H. unfold string_branch in H.
  apply string_loop_bounds in H. rewrite length_skipn in H. lia.
Qed.

(** The ways in which [parse] returns. *)
Lemma parse_S_inv fuel json start r :
  parse (S fuel) json start = Some r ->
  let p := skip_space json start in
  (length json <= p /\ r = (JNull, p))
  \/ (p < length json
      /\ (number_branch json p = Some r
          \/ string_branch json p = Some r
          \/ array_loop fuel json [] (p + 1) = Some (Return r)
          \/ object_loop fuel json [] (p + 1) = Some (Return r)
          \/ r = (JNull, p))).
Proof.
  rewrite parse_S. cbv zeta.
  set (p := skip_space json start).
  destruct (length json <=? p) eqn:Hend.
  { apply Nat.leb_le in Hend. intros H. inversion H. auto. }
  apply Nat.leb_gt in Hend. intros H. right. split; [exact Hend|].
  match type of H with
  | context [if ?c then number_branch json p else None] =>
      destruct (if c then number_branch json p else None) as [r1|] eqn:E1
  end.
  { inversion H; subst. left.
    match type of E1 with (if ?c then _ else _) = _ => destruct c end;
      [exact E1|discriminate]. }
  clear E1. right.
  match type of H with
  | context [if ?c then string_branch json p else None] =>
      destruct (if c then string_branch json p else None) as [r2|] eqn:E2
  end.
  { inversion H; subst. left.
    match type of E2 with (if ?c then _ else _) = _ => destruct c end;
      [exact E2|discriminate]. }
  clear E2. right.
  destruct (Ascii.eqb (char_at json p) "[").
  - destruct (array_loop fuel json [] (p + 1)) as [[ra|]|]; [| |discriminate].
    + inversion H; subst. auto.
    + right.
      destruct (Ascii.eqb (char_at json p) "{").
      * destruct (object_loop fuel json [] (p + 1)) as [[ro|]|];
          inversion H; subst; auto.
      * inversion H; subst; auto.
  - right.
    destruct (Ascii.eqb (char_at json p) "{").
    + destruct (object_loop fuel json [] (p + 1)) as [[ro|]|];
        inversion H; subst; auto.
    + inversion H; subst; auto.
Qed.

(** A separator is consumed only inside the buffer: [json[size]] is NUL. *)
Lemma after_separator_le json n c :
  Ascii.eqb NUL c = false ->
  n <= length json ->
  (if Ascii.eqb (char_at json n) c then n + 1 else n) <= length json.
Proof.
  intros Hc Hn. destruct (Ascii.eqb (char_at json n) c) eqn:E; auto.
  destruct (Nat.eq_dec n (length json)) as [->|Hne]; [|lia].
  unfold char_at in E. rewrite nth_overflow in E by lia. congruence.
Qed.

Lemma after_separator_ge json n c :
  n <= (if Ascii.eqb (char_at json n) c then n + 1 else n).
Proof. destruct (Ascii.eqb (char_at json n) c); lia. Qed.

(** Within the buffer the cursor only moves forward, and it stays within
    the buffer, so that [json[i]] is never read past [i = size]; a
    container loop that returns has moved past where it began. *)
Lemma cursor_bounds fuel :
  (forall json start v next,
      start <= length json ->
      parse fuel json start = Some (v, next) ->
      start <= next <= length json)
  /\ (forall json res i v next,
      i <= length json ->
      array_loop fuel json res i = Some (Return (v, next)) ->
      i < next <= length json)
  /\ (forall json res i v next,
      i <= length json ->
      object_loop fuel json res i = Some (Return (v, next)) ->
      i < next <= length json).
Proof.
  induction fuel as [|fuel (IHp & IHa & IHo)].
  - repeat split; intros; discriminate.
  - split; [|split].
    + intros json start v next Hs H.
      apply parse_S_inv in H. cbv zeta in H.
      pose proof (skip_space_ge json start) as Hge.
      pose proof (skip_space_le json start Hs) as Hle.
      set (p := skip_space json start) in *.
      destruct H as [[_ H]|[Hlt [H|[H|[H|[H|H]]]]]].
      * inversion H; subst. lia.
      * apply number_branch_bounds in H; lia.
      * apply string_branch_bounds in H; lia.
      * apply IHa in H; lia.
      * apply IHo in H; lia.
      * inversion H; subst. lia.
    + intros json res i v next Hi. rewrite array_loop_S.
      destruct (i <? length json) eqn:Hlt; [|discriminate].
      apply Nat.ltb_lt in Hlt.
      destruct (Ascii.eqb _ "]").
      { intros H. inversion H; subst. lia. }
      destruct (parse fuel json i) as [[obj n]|] eqn:Hp; [|discriminate].
      apply IHp in Hp; [|lia].
      intros H.
      pose proof (after_separator_ge json n ",") as Hge.
      apply IHa in H; [lia|].
      apply after_separator_le; [reflexivity|lia].
    + intros json res i v next Hi. rewrite object_loop_S.
      destruct (i <? length json) eqn:Hlt; [|discriminate].
      apply Nat.ltb_lt in Hlt.
      destruct (Ascii.eqb _ "}").
      { intros H. inversion H; subst. lia. }
      destruct (parse fuel json i) as [[keyobj ke]|] eqn:Hk; [|discriminate].
      apply IHp in Hk; [|lia].
      pose proof (after_separator_ge json ke ":") as Hkge.
      pose proof (after_separator_le json ke ":" eq_refl (proj2 Hk)) as Hkle.
      match goal with
      | |- match parse fuel json ?j with _ => _ end = _ -> _ =>
          destruct (parse fuel json j) as [[valobj ve]|] eqn:Hv; [|discriminate]
      end.
      apply IHp in Hv; [|exact Hkle].
      pose proof (after_separator_ge json ve ",") as Hvge.
      pose proof (after_separator_le json ve "," eq_refl (proj2 Hv)) as Hvle.
      intros H. apply IHo in H; [lia|exact Hvle].
Qed.

(** ** Malformed input *)

Lemma unterminated_string_loop body :
  unterminated body -> forall str i, string_loop body str i = None.
Proof.
  induction 1 as [| |d s Hs IH|c s Hb Hq Hs IH]; intros str i; simpl; auto.
  rewrite Hb, Hq. apply IH.
Qed.

Lemma parse_unrecognized fuel json start :
  skip_space json start < length json ->
  starts_value (char_at json (skip_space json start)) = false ->
  parse (S fuel) json start = Some (JNull, skip_space json start).
Proof.
  intros Hlt Hc.
  rewrite parse_S. cbv zeta.
  apply Nat.leb_gt in Hlt. rewrite Hlt.
  unfold starts_value in Hc.
  repeat (apply orb_false_elim in Hc; destruct Hc as [Hc ?]).
  repeat match goal with H : _ = false |- _ => rewrite H; clear H end.
  reflexivity.
Qed.

(** C1, as amended. On the unclosed array [[1,2] [parse] raises no error
    and returns Null with the cursor at offset 0; on the array with a
    trailing comma [[1,2,]] it returns the list of 1 and 2 with the
    cursor at 6; on [01x] it returns Int 1 with the cursor at 2.
    Whenever the character found after the leading white space is not a
    digit, a sign, a double quote, '[' or '{', [parse] returns Null with
    the cursor at the offset of that character. *)
Theorem unrecognized_input_returns_null :
  returns (chars "[1,2") 0 JNull 0
  /\ returns (chars "[1,2,]") 0 (JList [JInt 1; JInt 2]) 6
  /\ returns (chars "01x") 0 (JInt 1) 2
  /\ forall fuel json start,
      skip_space json start < length json ->
      starts_value (char_at json (skip_space json start)) = false ->
      parse (S fuel) json start = Some (JNull, skip_space json start).
Proof.
  split; [exists 4; reflexivity|].
  split; [exists 4; reflexivity|].
  split; [exists 1; reflexivity|].
  intros fuel json start. apply parse_unrecognized.
Qed.

Lemma unrecognized_input_returns_null_witness :
  skip_space (chars " x") 0 < length (chars " x")
  /\ starts_value (char_at (chars " x") (skip_space (chars " x") 0)) = false
  /\ parse 1 (chars " x") 0 = Some (JNull, 1).
Proof.
  split; [vm_compute; lia|].
  split; [reflexivity|].
  apply (proj2 (proj2 (proj2 unrecognized_input_returns_null)) 0 (chars " x") 0).
  - vm_compute; lia.
  - reflexivity.
Defined.

(** C1 as stated fails: on the unclosed array [[1,2] no error is raised;
    [parse] returns Null, with the cursor back at offset 0. *)
Lemma unclosed_array_returns_null : returns (chars "[1,2") 0 JNull 0.
Proof. exists 4. reflexivity. Qed.

(** C4, as amended. When a string is opened and the buffer ends before
    an unescaped closing quote, [parse] returns Null with the cursor at
    the offset of the opening quote; it returns no String. *)
Theorem unterminated_string_returns_null fuel pre ws body :
  all_space ws = true ->
  unterminated body ->
  parse (S fuel) (pre ++ ws ++ dquote :: body) (length pre)
  = Some (JNull, length pre + length ws).
Proof.
  intros Hws Hbody.
  rewrite parse_S. cbv zeta.
  rewrite skip_space_app by assumption.
  rewrite span_space_head by reflexivity. rewrite Nat.add_0_r.
  assert (Hlen : (length (pre ++ ws ++ dquote :: body) <=? length pre + length ws) = false).
  { apply Nat.leb_gt. rewrite !length_app. simpl. lia. }
  rewrite Hlen.
  assert (Hc : char_at (pre ++ ws ++ dquote :: body) (length pre + length ws) = dquote).
  { rewrite app_assoc, <- length_app. apply char_at_app_head. }
  rewrite Hc. cbn [isdigit code nat_of_ascii Ascii.eqb orb].
  assert (Hs : string_branch (pre ++ ws ++ dquote :: body) (length pre + length ws) = None).
  { unfold string_branch.
    replace (pre ++ ws ++ dquote :: body) with ((pre ++ ws ++ [dquote]) ++ body)
      by (rewrite <- !app_assoc; reflexivity).
    replace (length pre + length ws + 1) with (length (pre ++ ws ++ [dquote]))
      by (rewrite !length_app; simpl; lia).
    rewrite skipn_app_length. apply unterminated_string_loop. assumption. }
  vm_compute (isdigit dquote). vm_compute (Ascii.eqb dquote _).
  cbn [orb]. rewrite Hs. reflexivity.
Qed.

Lemma unterminated_string_returns_null_witness :
  all_space (chars "  ") = true
  /\ unterminated (chars "ab\")
  /\ parse 1 (chars "[  " ++ dquote :: chars "ab\") 1 = Some (JNull, 3).
Proof.
  assert (Hu : unterminated (chars "ab\")).
  { apply unterminated_char; [reflexivity|reflexivity|].
    apply unterminated_char; [reflexivity|reflexivity|].
    apply unterminated_backslash. }
  split; [reflexivity|]. split; [exact Hu|].
  exact (unterminated_string_returns_null 0 (chars "[") (chars "  ") (chars "ab\")
           eq_refl Hu).
Defined.

(** C4 as stated fails: a double quote followed by [abc] and the end of
    the buffer raises no UnterminatedString error; [parse] returns Null
    at offset 0. *)
Lemma unterminated_string_no_error : returns (dquote :: chars "abc") 0 JNull 0.
Proof. exists 1. reflexivity. Qed.

(** ** Termination *)

(** The array loop at an offset where the nested [parse] gives Null
    without moving, and where the character is neither ']' nor ',': every
    turn ends where it began. *)
Lemma array_loop_stuck json i :
  (i <? length json) = true ->
  Ascii.eqb (char_at json i) "]" = false ->
  Ascii.eqb (char_at json i) "," = false ->
  (forall fuel, parse (S fuel) json i = Some (JNull, i)) ->
  forall fuel res, array_loop fuel json res i = None.
Proof.
  intros Hlt Hb Hc Hp fuel.
  induction fuel as [|fuel IH]; intros res; [reflexivity|].
  rewrite array_loop_S, Hlt, Hb.
  destruct fuel as [|fuel]; [reflexivity|].
  rewrite Hp, Hc. apply IH.
Qed.

Lemma array_branch_stuck t :
  (forall fuel res, array_loop fuel ("[" :: t) res 1 = None) ->
  diverges ("[" :: t) 0.
Proof.
  intros H [|fuel]; [reflexivity|].
  rewrite parse_S. cbv zeta. unfold skip_space.
  cbn [skipn span_space]. change (isspace "[") with false. cbv iota.
  cbn [Nat.add length Nat.leb char_at nth].
  change (isdigit "[" || Ascii.eqb "[" "-" || Ascii.eqb "[" "+") with false.
  change (Ascii.eqb "[" dquote) with false.
  change (Ascii.eqb "[" "[") with true. cbv iota.
  rewrite H. reflexivity.
Qed.

(** C2 fails on the code: on the buffer [[a] the array branch never
    returns. The nested [parse] gives Null at the unchanged offset 1, the
    character there is neither ']' nor ',', and the loop repeats from the
    same offset with one more Null in the list, whatever the fuel. *)
Theorem array_branch_loops_forever : diverges (chars "[a") 0.
Proof.
  apply (array_branch_stuck (chars "a")).
  apply array_loop_stuck; reflexivity.
Qed.

(** ** Object keys *)

(** C5, as amended. A key that is not a String raises no error: its
    pair is not stored and the object loop goes on with the dictionary
    unchanged. So [{1:2}] parses to the empty Dict, and in
    [{1:2,'a':3}] only the pair of the key [a] is kept. *)
Theorem non_string_key_is_skipped :
  returns (chars "{1:2}") 0 (JDict []) 5
  /\ returns (json_text "{1:2,'a':3}") 0 (JDict [(chars "a", JInt 3)]) 11
  /\ forall fuel json res i keyobj keyeaten valobj valeaten,
      i < length json ->
      Ascii.eqb (char_at json i) "}" = false ->
      parse fuel json i = Some (keyobj, keyeaten) ->
      is_string keyobj = false ->
      parse fuel json
        (if Ascii.eqb (char_at json keyeaten) ":" then keyeaten + 1 else keyeaten)
      = Some (valobj, valeaten) ->
      object_loop (S fuel) json res i
      = object_loop fuel json res
          (if Ascii.eqb (char_at json valeaten) "," then valeaten + 1 else valeaten).
Proof.
  split; [exists 4; reflexivity|].
  split; [exists 5; reflexivity|].
  intros fuel json res i keyobj keyeaten valobj valeaten Hi Hc Hk Hs Hv.
  rewrite object_loop_S.
  apply Nat.ltb_lt in Hi. rewrite Hi, Hc, Hk, Hv, Hs. reflexivity.
Qed.

Lemma non_string_key_is_skipped_witness :
  object_loop 3 (chars "{1:2}") [] 1 = object_loop 2 (chars "{1:2}") [] 4.
Proof.
  apply (proj2 (proj2 non_string_key_is_skipped)
           2 (chars "{1:2}") [] 1 (JInt 1) 2 (JInt 2) 4).
  - vm_compute; lia.
  - reflexivity.
  - reflexivity.
  - reflexivity.
  - reflexivity.
Defined.

(** C5 as stated fails: the key of [{1:2}] is an Int, and [parse] raises
    no error; it returns the empty Dict with the cursor at 5. *)
Lemma int_key_no_error : returns (chars "{1:2}") 0 (JDict []) 5.
Proof. exists 4. reflexivity. Qed.

(** ** White space *)

(** C6 fails on the code: white space is skipped at the start of a value
    only. Before ',' or ']' it makes the array loop parse one more value,
    which is Null: [[ 1 , 2 ]] gives the list 1, Null, 2, Null where
    [[1,2]] gives the list 1, 2. Before ':' the value of the key is read
    as Null: [{ 'a' : 1 }] maps [a] to Null where [{'a':1}] maps it
    to Int 1. *)
Theorem whitespace_before_delimiter_changes_tree :
  returns (chars "[1,2]") 0 (JList [JInt 1; JInt 2]) 5
  /\ returns (chars "[ 1 , 2 ]") 0 (JList [JInt 1; JNull; JInt 2; JNull]) 9
  /\ returns (json_text "{'a':1}") 0 (JDict [(chars "a", JInt 1)]) 7
  /\ returns (json_text "{ 'a' : 1 }") 0 (JDict [(chars "a", JNull)]) 11.
Proof.
  split; [exists 4; reflexivity|].
  split; [exists 6; reflexivity|].
  split; [exists 4; reflexivity|].
  exists 6; reflexivity.
Qed.

(** C7, as amended. If the buffer is exhausted after the leading white
    space, [parse] returns Null with the cursor where the skip stopped:
    at the end of the buffer when the start offset is within it, and at
    the start offset when that is past the end. *)
Theorem exhausted_buffer_returns_null_at_end :
  (forall fuel pre ws,
      all_space ws = true ->
      parse (S fuel) (pre ++ ws) (length pre) = Some (JNull, length (pre ++ ws)))
  /\ (forall fuel json start,
      length json < start ->
      parse (S fuel) json start = Some (JNull, start)).
Proof.
  split.
  - intros fuel pre ws Hws. rewrite parse_S. cbv zeta.
    unfold skip_space. rewrite skipn_app_length, span_space_all by assumption.
    rewrite <- length_app, Nat.leb_refl. reflexivity.
  - intros fuel json start Hlt. rewrite parse_S. cbv zeta.
    rewrite skip_space_past by lia.
    assert (H : (length json <=? start) = true) by (apply Nat.leb_le; lia).
    rewrite H. reflexivity.
Qed.

Lemma exhausted_buffer_returns_null_at_end_witness :
  all_space (chars "  ") = true
  /\ parse 1 (chars "[1]  ") 3 = Some (JNull, 5).
Proof.
  split; [reflexivity|].
  exact (proj1 exhausted_buffer_returns_null_at_end 0 (chars "[1]") (chars "  ") eq_refl).
Defined.

(** C7 as stated fails: on a buffer of two spaces, from offset 0,
    [parse] returns Null with the cursor at 2, not at 0. *)
Lemma blank_buffer_moves_cursor : returns (chars "  ") 0 JNull 2.
Proof. exists 1. reflexivity. Qed.

(** ** Dictionaries *)

Lemma text_eqb_refl k : text_eqb k k = true.
Proof. induction k as [|c k IH]; simpl; auto. rewrite Ascii.eqb_refl. exact IH. Qed.

Lemma text_eqb_eq a b : text_eqb a b = true <-> a = b.
Proof.
  revert b. induction a as [|x a IH]; intros [|y b]; simpl; split;
    try discriminate; auto.
  - intros H. apply andb_prop in H. destruct H as [Hx Hab].
    apply Ascii.eqb_eq in Hx. apply IH in Hab. congruence.
  - intros H. inversion H; subst. rewrite Ascii.eqb_refl. apply IH. reflexivity.
Qed.

Lemma dict_get_set_same k v d : dict_get k (dict_set k v d) = Some v.
Proof.
  induction d as [|[k' v'] d IH]; simpl.
  - rewrite text_eqb_refl. reflexivity.
  - destruct (text_eqb k k') eqn:E; simpl.
    + rewrite text_eqb_refl. reflexivity.
    + rewrite E. exact IH.
Qed.

Lemma dict_set_set k v w d : dict_set k v (dict_set k w d) = dict_set k v d.
Proof.
  induction d as [|[k' v'] d IH]; simpl.
  - rewrite text_eqb_refl. reflexivity.
  - destruct (text_eqb k k') eqn:E; simpl.
    + rewrite text_eqb_refl. reflexivity.
    + rewrite E, IH. reflexivity.
Qed.



Lemma dict_set_keys k v (d : dict) :
  NoDup (map fst d) -> NoDup (map fst (dict_set k v d)).
Proof.
  induction d as [|[k0 v0] d IH]; simpl; intros Hnd.
  - constructor; [tauto|constructor].
  - inversion Hnd as [|? ? Hnotin Hnd']; subst.
    destruct (text_eqb k k0) eqn:E; simpl.
    + apply text_eqb_eq in E. subst k0. constructor; assumption.
    + constructor; [|apply IH; assumption].
      intros Hin. apply Hnotin. clear IH Hnd Hnd' Hnotin.
      induction d as [|[k1 v1] d IHd]; simpl in *.
      * destruct Hin as [Hin|[]]. subst k0. rewrite text_eqb_refl in E. discriminate.
      * destruct (text_eqb k k1) eqn:E1; simpl in Hin.
        -- apply text_eqb_eq in E1. subst k1. destruct Hin as [Hin|Hin]; auto.
        -- destruct Hin as [Hin|Hin]; auto.
Qed.


(** ** The cursor *)

(** C10. From a start offset that is not past the end of the buffer,
    the cursor returned by [parse] is never before the start offset. *)
Theorem cursor_never_moves_back fuel json start v next :
  start <= length json ->
  parse fuel json start = Some (v, next) ->
  start <= next.
Proof.
  intros Hs H. apply (proj1 (cursor_bounds fuel)) in H; [lia|exact Hs].
Qed.

Lemma cursor_never_moves_back_witness :
  2 <= length (chars "[1 ,2")
  /\ parse 1 (chars "[1 ,2") 2 = Some (JNull, 3)
  /\ 2 <= 3.
Proof.
  split; [vm_compute; lia|]. split; [reflexivity|].
  apply (cursor_never_moves_back 1 (chars "[1 ,2") 2 JNull 3).
  - vm_compute; lia.
  - reflexivity.
Defined.

(** ** Number literals *)

Lemma isdigit_not_space c : isdigit c = true -> isspace c = false.
Proof.
  unfold isdigit, isspace. intros H. apply andb_prop in H. destruct H as [H1 H2].
  apply Nat.leb_le in H1. apply Nat.leb_le in H2.
  apply orb_false_intro.
  - apply Nat.eqb_neq. lia.
  - apply andb_false_intro2. apply Nat.leb_gt. lia.
Qed.

Lemma is_sign_cases c : is_sign c = true -> c = "+" \/ c = "-".
Proof.
  unfold is_sign. intros H. apply orb_prop in H.
  destruct H as [H|H]; apply Ascii.eqb_eq in H; auto.
Qed.

Lemma is_exp_mark_cases c : is_exp_mark c = true -> c = "e" \/ c = "E".
Proof.
  unfold is_exp_mark. intros H. apply orb_prop in H.
  destruct H as [H|H]; apply Ascii.eqb_eq in H; auto.
Qed.

Lemma is_sign_not_space c : is_sign c = true -> isspace c = false.
Proof. intros H. destruct (is_sign_cases c H); subst; reflexivity. Qed.

Lemma is_sign_not_digit c : is_sign c = true -> isdigit c = false.
Proof. intros H. destruct (is_sign_cases c H); subst; reflexivity. Qed.

Lemma isdigit_not_sign c : isdigit c = true -> is_sign c = false.
Proof.
  intros H. destruct (is_sign c) eqn:E; auto.
  apply is_sign_not_digit in E. congruence.
Qed.

Lemma is_exp_mark_not_digit c : is_exp_mark c = true -> isdigit c = false.
Proof. intros H. destruct (is_exp_mark_cases c H); subst; reflexivity. Qed.

Lemma is_exp_mark_not_point c : is_exp_mark c = true -> Ascii.eqb c "." = false.
Proof. intros H. destruct (is_exp_mark_cases c H); subst; reflexivity. Qed.

Lemma span_digits_app ds s :
  all_digits ds = true ->
  span_digits (ds ++ s) = length ds + span_digits s.
Proof.
  induction ds as [|c ds IH]; simpl; intros H; auto.
  apply andb_prop in H. destruct H as [Hc Hds].
  rewrite Hc, IH; auto.
Qed.

Lemma span_digits_le s : span_digits s <= length s.
Proof. induction s as [|c s IH]; simpl; auto. destruct (isdigit c); simpl; lia. Qed.

Lemma span_digits_firstn s : all_digits (firstn (span_digits s) s) = true.
Proof.
  induction s as [|c s IH]; simpl; auto.
  destruct (isdigit c) eqn:E; simpl; auto. rewrite E. exact IH.
Qed.

Lemma span_digits_pos_head s :
  0 < span_digits s -> exists c t, s = c :: t /\ isdigit c = true.
Proof.
  destruct s as [|c t]; simpl; [lia|].
  destruct (isdigit c) eqn:E; [eauto|lia].
Qed.

Lemma firstn_add {A} (a b : nat) (s : list A) :
  firstn (a + b) s = firstn a s ++ firstn b (skipn a s).
Proof.
  revert s. induction a as [|a IH]; intros s; simpl; auto.
  destruct s as [|x s]; simpl.
  - rewrite firstn_nil. reflexivity.
  - rewrite IH. reflexivity.
Qed.

(** *** The parts that the pattern reads are parts of the grammar *)

Lemma sign_len_firstn s : optional sign (firstn (sign_len s) s).
Proof.
  destruct s as [|c t]; simpl; [left; reflexivity|].
  destruct (is_sign c) eqn:E; simpl; [right|left; reflexivity].
  exists c. auto.
Qed.

Lemma point_len_firstn s : optional fraction (firstn (point_len s) s).
Proof.
  destruct s as [|c t]; simpl; [left; reflexivity|].
  destruct (Ascii.eqb c ".") eqn:E; [right|left; reflexivity].
  apply Ascii.eqb_eq in E. subst c. cbn [firstn].
  exists (firstn (span_digits t) t). split; [apply span_digits_firstn|reflexivity].
Qed.

Lemma exp_len_firstn s : optional exponent (firstn (exp_len s) s).
Proof.
  destruct s as [|c t]; simpl; [left; reflexivity|].
  destruct (is_exp_mark c) eqn:E; [|left; reflexivity].
  destruct (span_digits (skipn (sign_len t) t) =? 0) eqn:Ed; [left; reflexivity|].
  apply Nat.eqb_neq in Ed. right. cbn [Nat.add firstn].
  exists c, (firstn (sign_len t) t),
    (firstn (span_digits (skipn (sign_len t) t)) (skipn (sign_len t) t)).
  split; [exact E|]. split; [apply sign_len_firstn|].
  split; [apply span_digits_firstn|]. split.
  - intros Hnil. apply (f_equal (@length ascii)) in Hnil.
    rewrite length_firstn in Hnil. simpl in Hnil.
    pose proof (span_digits_le (skipn (sign_len t) t)). lia.
  - rewrite firstn_add. reflexivity.
Qed.

Lemma sign_len_le s : sign_len s <= length s.
Proof. destruct s as [|c t]; simpl; auto. destruct (is_sign c); lia. Qed.

Lemma point_len_le s : point_len s <= length s.
Proof.
  destruct s as [|c t]; simpl; auto.
  destruct (Ascii.eqb c "."); [|lia].
  pose proof (span_digits_le t). lia.
Qed.

Lemma exp_len_le s : exp_len s <= length s.
Proof.
  destruct s as [|c t]; simpl; auto.
  destruct (is_exp_mark c); [|lia].
  destruct (_ =? 0); [lia|].
  pose proof (sign_len_le t).
  pose proof (span_digits_le (skipn (sign_len t) t)) as H1.
  rewrite length_skipn in H1. lia.
Qed.

(** What the pattern matches is a number literal, and it lies within the
    text. *)
Lemma num_re_match_sound s m :
  num_re_match s = Some m ->
  number_literal (firstn m s) /\ m <= length s.
Proof.
  unfold num_re_match.
  set (k := sign_len s). set (s1 := skipn k s).
  set (n := span_digits s1). set (s2 := skipn n s1).
  set (f := point_len s2). set (s3 := skipn f s2).
  destruct (n =? 0) eqn:En; [discriminate|].
  apply Nat.eqb_neq in En. intros H. inversion H; subst m; clear H.
  split.
  - replace (k + n + f + exp_len s3) with (k + (n + (f + exp_len s3))) by lia.
    rewrite firstn_add. fold s1. rewrite firstn_add. fold s2.
    rewrite firstn_add. fold s3.
    constructor.
    + apply sign_len_firstn.
    + apply span_digits_firstn.
    + intros Hnil. apply (f_equal (@length ascii)) in Hnil.
      rewrite length_firstn in Hnil. simpl in Hnil.
      pose proof (span_digits_le s1). fold n in H. lia.
    + apply point_len_firstn.
    + apply exp_len_firstn.
  - pose proof (sign_len_le s) as Hk. fold k in Hk.
    pose proof (span_digits_le s1) as Hn. fold n in Hn.
    pose proof (point_len_le s2) as Hf. fold f in Hf.
    pose proof (exp_len_le s3) as He.
    unfold s3, s2, s1 in *. rewrite ?length_skipn in *. lia.
Qed.

(** *** The pattern reads at least as far as any literal *)

Lemma sign_len_app sg c t :
  optional sign sg -> isdigit c = true ->
  sign_len (sg ++ c :: t) = length sg.
Proof.
  intros [->|(x & Hx & ->)] Hc; simpl.
  - rewrite (isdigit_not_sign c Hc). reflexivity.
  - rewrite Hx. reflexivity.
Qed.

Lemma exp_len_app e rest :
  optional exponent e -> length e <= exp_len (e ++ rest).
Proof.
  intros [->|(c & sg & ds & Hc & Hsg & Hds & Hne & ->)]; [simpl; lia|].
  destruct ds as [|d ds]; [congruence|].
  cbn [app exp_len]. rewrite Hc.
  assert (Hd : isdigit d = true) by (simpl in Hds; apply andb_prop in Hds; tauto).
  rewrite <- app_assoc. cbn [app].
  rewrite (sign_len_app sg d (ds ++ rest) Hsg Hd).
  replace (sg ++ d :: ds ++ rest) with (sg ++ (d :: ds) ++ rest) by reflexivity.
  rewrite skipn_app_length.
  rewrite span_digits_app by assumption.
  destruct (_ =? 0) eqn:E.
  - apply Nat.eqb_eq in E. simpl in E. lia.
  - cbn [length]. rewrite length_app. cbn [length]. lia.
Qed.

Lemma exponent_head_no_digits e rest :
  optional exponent e -> e <> [] -> span_digits (e ++ rest) = 0.
Proof.
  intros [->|(c & sg & ds & Hc & _ & _ & _ & ->)] Hne; [congruence|].
  simpl. rewrite (is_exp_mark_not_digit c Hc). reflexivity.
Qed.

Lemma exponent_head_no_point e rest :
  optional exponent e -> e <> [] -> point_len (e ++ rest) = 0.
Proof.
  intros [->|(c & sg & ds & Hc & _ & _ & _ & ->)] Hne; [congruence|].
  simpl. rewrite (is_exp_mark_not_point c Hc). reflexivity.
Qed.

Lemma after_fraction_ge f e rest :
  optional fraction f -> optional exponent e ->
  length (f ++ e)
  <= point_len (f ++ e ++ rest)
     + exp_len (skipn (point_len (f ++ e ++ rest)) (f ++ e ++ rest)).
Proof.
  intros Hf He. rewrite length_app.
  destruct (list_eq_dec ascii_dec e []) as [->|Hne].
  - cbn [app length]. rewrite Nat.add_0_r.
    destruct Hf as [->|(fd & Hfd & ->)]; [simpl; lia|].
    cbn [app point_len]. rewrite Ascii.eqb_refl.
    rewrite span_digits_app by assumption. cbn [length]. lia.
  - destruct Hf as [->|(fd & Hfd & ->)].
    + cbn [app length]. rewrite exponent_head_no_point by assumption.
      cbn [skipn]. pose proof (exp_len_app e rest He). lia.
    + cbn [app point_len]. rewrite Ascii.eqb_refl.
      rewrite span_digits_app by assumption.
      rewrite exponent_head_no_digits by assumption. rewrite Nat.add_0_r.
      cbn [skipn]. rewrite skipn_app_length.
      pose proof (exp_len_app e rest He). cbn [length]. lia.
Qed.

Lemma num_re_match_reaches lit rest :
  number_literal lit ->
  exists m, num_re_match (lit ++ rest) = Some m /\ length lit <= m.
Proof.
  intros [sg ds f e Hsg Hds Hne Hf He].
  destruct ds as [|d ds]; [congruence|].
  assert (Hd : isdigit d = true) by (simpl in Hds; apply andb_prop in Hds; tauto).
  unfold num_re_match.
  replace ((sg ++ (d :: ds) ++ f ++ e) ++ rest)
    with (sg ++ d :: (ds ++ f ++ e ++ rest))
    by (rewrite <- !app_assoc; reflexivity).
  rewrite (sign_len_app sg d _ Hsg Hd), skipn_app_length.
  replace (d :: ds ++ f ++ e ++ rest) with ((d :: ds) ++ f ++ e ++ rest) by reflexivity.
  rewrite span_digits_app by assumption.
  destruct (_ =? 0) eqn:E; [apply Nat.eqb_eq in E; simpl in E; lia|].
  eexists. split; [reflexivity|].
  rewrite !length_app.
  destruct (span_digits (f ++ e ++ rest)) as [|extra] eqn:Hx.
  - rewrite Nat.add_0_r, skipn_app_length.
    pose proof (after_fraction_ge f e rest Hf He) as Hge.
    rewrite length_app in Hge. lia.
  - assert (Hfe : f = [] /\ e = []).
    { destruct Hf as [->|(fd & _ & ->)]; [|simpl in Hx; discriminate].
      split; [reflexivity|].
      destruct (list_eq_dec ascii_dec e []) as [->|Hn]; [reflexivity|].
      cbn [app] in Hx. rewrite exponent_head_no_digits in Hx by assumption.
      discriminate. }
    destruct Hfe as [-> ->]. cbn [length]. lia.
Qed.

(** The pattern matches the longest literal at the head of the text. *)
Lemma num_re_match_longest lit s :
  longest_literal lit s -> num_re_match s = Some (length lit).
Proof.
  intros (Hlit & [rest ->] & Hmax).
  destruct (num_re_match_reaches lit rest Hlit) as (m & Hm & Hge).
  rewrite Hm. f_equal.
  destruct (num_re_match_sound _ _ Hm) as [Hsound Hle].
  assert (Hpre : prefix_of (firstn m (lit ++ rest)) (lit ++ rest)).
  { exists (skipn m (lit ++ rest)). symmetry. apply firstn_skipn. }
  specialize (Hmax _ Hsound Hpre).
  rewrite length_firstn in Hmax. lia.
Qed.

(** *** The two conversions on a literal *)

Lemma num_re_match_exact lit :
  number_literal lit -> num_re_match lit = Some (length lit).
Proof.
  intros Hlit.
  destruct (num_re_match_reaches lit [] Hlit) as (m & Hm & Hge).
  rewrite app_nil_r in Hm. rewrite Hm. f_equal.
  apply num_re_match_sound in Hm. lia.
Qed.

Lemma number_literal_head lit :
  number_literal lit ->
  exists c t, lit = c :: t /\ (isdigit c || is_sign c) = true.
Proof.
  intros [sg ds f e Hsg Hds Hne Hf He].
  destruct ds as [|d ds]; [congruence|].
  assert (Hd : isdigit d = true) by (simpl in Hds; apply andb_prop in Hds; tauto).
  destruct Hsg as [->|(c & Hc & ->)]; simpl.
  - exists d, (ds ++ f ++ e). rewrite Hd. auto.
  - exists c, (d :: ds ++ f ++ e). rewrite Hc, orb_true_r. auto.
Qed.

Lemma number_literal_no_space lit rest :
  number_literal lit -> span_space (lit ++ rest) = 0.
Proof.
  intros H. destruct (number_literal_head lit H) as (c & t & -> & Hc).
  apply span_space_head. apply orb_prop in Hc.
  destruct Hc; [apply isdigit_not_space|apply is_sign_not_space]; assumption.
Qed.

(** On text that does not begin with white space [strtod] reads what the
    pattern matches. *)
Lemma strtod_end_of_match s m :
  span_space s = 0 -> num_re_match s = Some m -> strtod_end s = m.
Proof.
  unfold strtod_end, num_re_match. intros ->. cbn [skipn Nat.add].
  destruct (span_digits (skipn (sign_len s) s)) as [|n] eqn:En; [discriminate|].
  cbn [Nat.eqb Nat.add]. intros H. inversion H. reflexivity.
Qed.

Lemma try_parse_double_literal lit :
  number_literal lit -> try_parse_double lit = (true, lit).
Proof.
  intros Hlit. unfold try_parse_double.
  rewrite (strtod_end_of_match lit (length lit)).
  - unfold char_at. rewrite nth_overflow by lia. rewrite firstn_all. reflexivity.
  - rewrite <- (app_nil_r lit). apply number_literal_no_space. assumption.
  - apply num_re_match_exact. assumption.
Qed.

Lemma existsb_all_digits p ds :
  all_digits ds = true ->
  (forall c, isdigit c = true -> p c = false) ->
  existsb p ds = false.
Proof.
  intros Hds Hp. induction ds as [|c ds IH]; simpl; auto.
  simpl in Hds. apply andb_prop in Hds. destruct Hds as [Hc Hds].
  rewrite (Hp c Hc), IH; auto.
Qed.

Lemma isdigit_not_mark c :
  isdigit c = true -> Ascii.eqb c "." || is_exp_mark c = false.
Proof.
  intros H. destruct (Ascii.eqb c "." || is_exp_mark c) eqn:E; auto.
  apply orb_prop in E. destruct E as [E|E].
  - apply Ascii.eqb_eq in E. subst. discriminate.
  - apply is_exp_mark_not_digit in E. congruence.
Qed.

(** [strtol] stops after the digits of a literal, and the character it
    stops on is NUL exactly when there is neither point nor exponent. *)
Lemma try_parse_int_literal lit :
  number_literal lit ->
  fst (try_parse_int lit) = negb (has_point_or_exponent lit).
Proof.
  intros [sg ds f e Hsg Hds Hne Hf He].
  assert (Hlit : number_literal (sg ++ ds ++ f ++ e)) by (constructor; assumption).
  destruct ds as [|d ds]; [congruence|].
  assert (Hd : isdigit d = true) by (simpl in Hds; apply andb_prop in Hds; tauto).
  unfold try_parse_int, strtol.
  assert (Hw : span_space (sg ++ (d :: ds) ++ f ++ e) = 0).
  { rewrite <- (app_nil_r (sg ++ (d :: ds) ++ f ++ e)).
    apply number_literal_no_space. exact Hlit. }
  rewrite Hw. cbn [skipn Nat.add].
  replace (sg ++ (d :: ds) ++ f ++ e) with (sg ++ d :: (ds ++ f ++ e)) by reflexivity.
  rewrite (sign_len_app sg d _ Hsg Hd), skipn_app_length.
  replace (d :: ds ++ f ++ e) with ((d :: ds) ++ f ++ e) by reflexivity.
  rewrite span_digits_app by assumption.
  assert (Hfe : span_digits (f ++ e) = 0).
  { destruct Hf as [->|(fd & _ & ->)]; [|reflexivity].
    destruct (list_eq_dec ascii_dec e []) as [->|Hn]; [reflexivity|].
    cbn [app]. rewrite <- (app_nil_r e).
    apply exponent_head_no_digits; assumption. }
  rewrite Hfe, Nat.add_0_r.
  destruct (length (d :: ds) =? 0) eqn:E; [simpl in E; discriminate|].
  cbn [fst].
  replace (sg ++ (d :: ds) ++ f ++ e) with ((sg ++ d :: ds) ++ f ++ e)
    by (rewrite <- app_assoc; reflexivity).
  replace (length sg + length (d :: ds)) with (length (sg ++ d :: ds) + 0)
    by (rewrite length_app; lia).
  rewrite char_at_app.
  unfold has_point_or_exponent. rewrite !existsb_app.
  rewrite (existsb_all_digits _ (d :: ds) Hds isdigit_not_mark), orb_false_r.
  assert (Hs : existsb (fun c => Ascii.eqb c "." || is_exp_mark c) sg = false).
  { destruct Hsg as [->|(c & Hc & ->)]; [reflexivity|].
    simpl. destruct (is_sign_cases c Hc); subst; reflexivity. }
  rewrite Hs. cbn [orb].
  destruct Hf as [->|(fd & _ & ->)]; [|reflexivity].
  destruct He as [->|(c & sg' & ds' & Hc & _ & _ & _ & ->)]; [reflexivity|].
  cbn [app char_at nth existsb]. rewrite Hc, orb_true_r. cbn [orb negb].
  destruct (is_exp_mark_cases c Hc); subst; reflexivity.
Qed.

Lemma number_branch_literal pre lit s :
  longest_literal lit s ->
  number_branch (pre ++ s) (length pre)
  = Some (if has_point_or_exponent lit
          then JDouble lit
          else JInt (to_int (fst (strtol lit))),
          length pre + length lit).
Proof.
  intros Hlong.
  pose proof (num_re_match_longest lit s Hlong) as Hm.
  destruct Hlong as (Hlit & [rest ->] & _).
  unfold number_branch. rewrite skipn_app_length.
  assert (Hre : regex_search (lit ++ rest) = Some lit).
  { destruct (lit ++ rest) eqn:Hs; cbn [regex_search]; rewrite Hm;
      rewrite <- Hs; rewrite firstn_app, Nat.sub_diag, firstn_all;
      simpl; rewrite app_nil_r; reflexivity. }
  rewrite Hre.
  pose proof (try_parse_int_literal lit Hlit) as Hint.
  unfold try_parse_int in *. destruct (strtol lit) as [v e]. cbn [fst] in *.
  rewrite Hint.
  destruct (has_point_or_exponent lit); cbn [negb]; [|reflexivity].
  rewrite (try_parse_double_literal lit Hlit). reflexivity.
Qed.

Lemma parse_longest_literal fuel pre lit s :
  longest_literal lit s ->
  parse (S fuel) (pre ++ s) (length pre)
  = Some (if has_point_or_exponent lit
          then JDouble lit
          else JInt (to_int (fst (strtol lit))),
          length pre + length lit).
Proof.
  intros Hlong.
  pose proof (number_branch_literal pre lit s Hlong) as Hnb.
  destruct Hlong as (Hlit & [rest ->] & _).
  destruct (number_literal_head lit Hlit) as (c & t & Hct & Hc).
  rewrite parse_S. cbv zeta.
  unfold skip_space. rewrite skipn_app_length.
  rewrite (number_literal_no_space lit rest Hlit), Nat.add_0_r.
  assert (Hlen : (length (pre ++ lit ++ rest) <=? length pre) = false).
  { apply Nat.leb_gt. rewrite !length_app. subst lit. simpl. lia. }
  rewrite Hlen.
  assert (Hcond : isdigit c || Ascii.eqb c "-" || Ascii.eqb c "+" = true).
  { apply orb_prop in Hc. destruct Hc as [Hc|Hc].
    - rewrite Hc. reflexivity.
    - destruct (is_sign_cases c Hc) as [Hs|Hs]; rewrite Hs; reflexivity. }
  assert (Hfirst : char_at (pre ++ lit ++ rest) (length pre) = c).
  { rewrite Hct. apply char_at_app_head. }
  rewrite Hfirst, Hcond, Hnb. reflexivity.
Qed.

(** The longest number literal [lit] at the cursor decides the tag:
    without point and exponent the result is Int, with the payload that
    [try_parse_int] stores, and otherwise it is Double; the cursor
    advances by the length of the literal. *)
Theorem number_literal_tag fuel json start lit :
  longest_literal lit (skipn start json) ->
  parse (S fuel) json start
  = Some (if has_point_or_exponent lit
          then JDouble lit
          else JInt (to_int (fst (strtol lit))),
          start + length lit).
Proof.
  intros Hlong.
  assert (Hne : skipn start json <> []).
  { destruct Hlong as (Hlit & [rest Hrest] & _).
    destruct (number_literal_head lit Hlit) as (c & t & -> & _).
    rewrite Hrest. discriminate. }
  assert (Hstart : length (firstn start json) = start).
  { rewrite length_firstn. apply Nat.min_l.
    destruct (Nat.le_gt_cases start (length json)) as [Hle|Hgt]; [assumption|].
    rewrite skipn_all2 in Hne by lia. congruence. }
  pose proof (parse_longest_literal fuel (firstn start json) lit _ Hlong) as H.
  rewrite firstn_skipn, Hstart in H. exact H.
Qed.

(** What the pattern matches at the head of a text is the longest literal
    there. *)
Lemma num_re_match_is_longest s m :
  num_re_match s = Some m -> longest_literal (firstn m s) s.
Proof.
  intros Hm. destruct (num_re_match_sound s m Hm) as [Hlit Hle].
  split; [exact Hlit|]. split.
  - exists (skipn m s). symmetry. apply firstn_skipn.
  - intros lit' Hlit' [t ->].
    destruct (num_re_match_reaches lit' t Hlit') as (m' & Hm' & Hge).
    rewrite Hm in Hm'. inversion Hm'; subst m'.
    rewrite length_firstn. lia.
Qed.

Lemma number_literal_tag_witness :
  longest_literal (chars "-12.5e3") (skipn 1 (chars "[-12.5e3,7]"))
  /\ parse 1 (chars "[-12.5e3,7]") 1 = Some (JDouble (chars "-12.5e3"), 8).
Proof.
  assert (H : longest_literal (chars "-12.5e3") (skipn 1 (chars "[-12.5e3,7]"))).
  { apply (num_re_match_is_longest (chars "-12.5e3,7]") 7). reflexivity. }
  split; [exact H|].
  exact (number_literal_tag 0 (chars "[-12.5e3,7]") 1 (chars "-12.5e3") H).
Defined.

(** C3 fails on the code: the literal [99999999999] has neither point
    nor exponent and is beyond the range of [int], so it should give
    Double; [try_parse_int] stores the [long] of [strtol] in an [int]
    without a range check and accepts it, and [parse] gives Int with the
    value reduced modulo 2^32. *)
Theorem oversized_literal_is_int :
  returns (chars "99999999999") 0 (JInt 1215752191) 11.
Proof. exists 1. reflexivity. Qed.

(** ** Printing and parsing again *)

Lemma skipn_step (json : text) i a s :
  skipn i json = a ++ s -> skipn (i + length a) json = s.
Proof.
  intros H. rewrite Nat.add_comm, <- skipn_skipn, H. apply skipn_app_length.
Qed.

Lemma skipn_head (json : text) i c t :
  skipn i json = c :: t -> char_at json i = c /\ i < length json.
Proof.
  intros H. split.
  - unfold char_at. rewrite <- (firstn_skipn i json), H.
    destruct (Nat.le_gt_cases (length json) i) as [Hle|Hgt].
    + rewrite skipn_all2 in H by assumption. discriminate.
    + rewrite app_nth2; rewrite length_firstn, Nat.min_l by lia; [|lia].
      rewrite Nat.sub_diag. reflexivity.
  - destruct (Nat.le_gt_cases (length json) i) as [Hle|Hgt]; [|assumption].
    rewrite skipn_all2 in H by assumption. discriminate.
Qed.

Lemma skipn_split (json : text) i s :
  skipn i json = s -> s <> [] ->
  json = firstn i json ++ s /\ length (firstn i json) = i.
Proof.
  intros H Hne. split.
  - rewrite <- H. symmetry. apply firstn_skipn.
  - rewrite length_firstn. apply Nat.min_l.
    destruct (Nat.le_gt_cases i (length json)) as [Hle|Hgt]; [assumption|].
    rewrite skipn_all2 in H by lia. congruence.
Qed.

(** [parse] depends on the start offset only through the place where the
    leading white space ends. *)
Lemma parse_from_skip fuel json start start' :
  skip_space json start = skip_space json start' ->
  parse fuel json start = parse fuel json start'.
Proof.
  intros H. destruct fuel as [|fuel]; [reflexivity|].
  rewrite !parse_S. cbv zeta. rewrite H. reflexivity.
Qed.

Lemma parse_leading_space fuel json i ws c t :
  all_space ws = true -> isspace c = false ->
  skipn i json = ws ++ c :: t ->
  parse fuel json i = parse fuel json (i + length ws).
Proof.
  intros Hws Hc H. apply parse_from_skip. unfold skip_space.
  rewrite (skipn_step json i ws (c :: t) H), H.
  rewrite span_space_app by assumption.
  rewrite span_space_head by assumption. lia.
Qed.

Lemma starts_value_cases c :
  starts_value c = true ->
  isdigit c = true \/ c = "-" \/ c = "+" \/ c = dquote \/ c = "[" \/ c = "{".
Proof.
  unfold starts_value. intros H.
  repeat (apply orb_prop in H; destruct H as [H|H]);
    try (apply Ascii.eqb_eq in H); tauto.
Qed.

Lemma starts_value_not_space c : starts_value c = true -> isspace c = false.
Proof.
  intros H. destruct (starts_value_cases c H) as [H1|[H1|[H1|[H1|[H1|H1]]]]];
    try (subst c; reflexivity).
  apply isdigit_not_space. assumption.
Qed.

Lemma starts_value_not c x :
  starts_value x = false -> starts_value c = true -> Ascii.eqb c x = false.
Proof.
  intros Hx Hc. destruct (Ascii.eqb c x) eqn:E; [|reflexivity].
  apply Ascii.eqb_eq in E. congruence.
Qed.

Lemma isspace_not c x :
  isspace x = false -> isspace c = true -> Ascii.eqb c x = false.
Proof.
  intros Hx Hc. destruct (Ascii.eqb c x) eqn:E; [|reflexivity].
  apply Ascii.eqb_eq in E. congruence.
Qed.

(** *** Decimal digits *)

Arguments digit_char : simpl never.

Lemma digit_char_code n : code (digit_char n) = 48 + Z.to_nat (n mod 10).
Proof.
  unfold code, digit_char. apply nat_ascii_embedding.
  pose proof (Z.mod_pos_bound n 10 eq_refl). lia.
Qed.

Lemma digit_char_isdigit n : isdigit (digit_char n) = true.
Proof.
  unfold isdigit. rewrite digit_char_code.
  pose proof (Z.mod_pos_bound n 10 eq_refl).
  apply andb_true_intro. split; apply Nat.leb_le; lia.
Qed.

Lemma digit_char_val n : digit_val (digit_char n) = (n mod 10)%Z.
Proof.
  unfold digit_val. rewrite digit_char_code.
  pose proof (Z.mod_pos_bound n 10 eq_refl). lia.
Qed.

Lemma digits_of_unfold fuel n acc :
  digits_of fuel n acc =
  match fuel with
  | 0 => digit_char n :: acc
  | S fuel' =>
      if (n <? 10)%Z then digit_char n :: acc
      else digits_of fuel' (n / 10) (digit_char n :: acc)
  end.
Proof. destruct fuel; reflexivity. Qed.

Lemma digits_of_app fuel : forall n acc,
  exists ds, digits_of fuel n acc = ds ++ acc
             /\ all_digits ds = true /\ ds <> [].
Proof.
  induction fuel as [|fuel IH]; intros n acc; rewrite digits_of_unfold.
  - exists [digit_char n]. cbn [app all_digits forallb].
    rewrite digit_char_isdigit. repeat split; congruence.
  - destruct (n <? 10)%Z.
    + exists [digit_char n]. cbn [app all_digits forallb].
      rewrite digit_char_isdigit. repeat split; congruence.
    + destruct (IH (n / 10)%Z (digit_char n :: acc)) as (ds & Hds & Hall & Hne).
      exists (ds ++ [digit_char n]). rewrite Hds, <- app_assoc.
      split; [reflexivity|]. split.
      * unfold all_digits in *. rewrite forallb_app, Hall.
        cbn [forallb]. rewrite digit_char_isdigit. reflexivity.
      * destruct ds; discriminate.
Qed.

Lemma digits_of_value fuel : forall n acc,
  (0 <= n < 10 ^ Z.of_nat (S fuel))%Z ->
  digits_value 0 (digits_of fuel n acc) = digits_value n acc.
Proof.
  induction fuel as [|fuel IH]; intros n acc Hn; rewrite digits_of_unfold.
  - cbn [digits_value]. rewrite digit_char_isdigit, digit_char_val.
    change (10 ^ Z.of_nat 1)%Z with 10%Z in Hn.
    rewrite Z.mod_small by lia. f_equal.
  - destruct (n <? 10)%Z eqn:E.
    + apply Z.ltb_lt in E.
      cbn [digits_value]. rewrite digit_char_isdigit, digit_char_val.
      rewrite Z.mod_small by lia. f_equal.
    + apply Z.ltb_ge in E. rewrite IH.
      * cbn [digits_value]. rewrite digit_char_isdigit, digit_char_val.
        f_equal. pose proof (Z.div_mod n 10). lia.
      * split; [apply Z.div_pos; lia|].
        apply Z.div_lt_upper_bound; [lia|].
        replace (Z.of_nat (S (S fuel))) with (Z.succ (Z.of_nat (S fuel))) in Hn by lia.
        rewrite Z.pow_succ_r in Hn by lia. lia.
Qed.

Lemma print_nat_fuel n :
  (0 <= n)%Z -> (0 <= n < 10 ^ Z.of_nat (S (Z.to_nat (Z.log2 n))))%Z.
Proof.
  intros Hn. split; [assumption|].
  pose proof (Z.log2_nonneg n) as Hl.
  replace (Z.of_nat (S (Z.to_nat (Z.log2 n)))) with (Z.succ (Z.log2 n)) by lia.
  destruct (Z.eq_dec n 0) as [->|Hne].
  - reflexivity.
  - pose proof (Z.log2_spec n ltac:(lia)) as [_ Hlt].
    apply Z.lt_le_trans with (1 := Hlt).
    apply Z.pow_le_mono_l. lia.
Qed.

Lemma print_nat_digits n :
  all_digits (print_nat n) = true /\ print_nat n <> [].
Proof.
  unfold print_nat.
  destruct (digits_of_app (Z.to_nat (Z.log2 n)) n []) as (ds & Hds & Hall & Hne).
  rewrite Hds, app_nil_r. auto.
Qed.

Lemma print_nat_value n : (0 <= n)%Z -> digits_value 0 (print_nat n) = n.
Proof.
  intros Hn. unfold print_nat. rewrite digits_of_value.
  - reflexivity.
  - apply print_nat_fuel. assumption.
Qed.

(** [print_int i] is a sign, if any, and digits. *)
Lemma print_int_parts i :
  exists sg ds,
    print_int i = sg ++ ds /\ optional sign sg
    /\ all_digits ds = true /\ ds <> [].
Proof.
  unfold print_int. destruct (i <? 0)%Z.
  - destruct (print_nat_digits (- i)) as [Hall Hne].
    exists ["-"], (print_nat (- i)). repeat split; auto.
    right. exists "-"%char. auto.
  - destruct (print_nat_digits i) as [Hall Hne].
    exists [], (print_nat i). repeat split; auto. left. reflexivity.
Qed.

Lemma print_int_literal i : number_literal (print_int i).
Proof.
  destruct (print_int_parts i) as (sg & ds & -> & Hsg & Hall & Hne).
  replace (sg ++ ds) with (sg ++ ds ++ [] ++ []) by (rewrite !app_nil_r; reflexivity).
  constructor; auto; left; reflexivity.
Qed.

Lemma print_int_no_mark i : has_point_or_exponent (print_int i) = false.
Proof.
  destruct (print_int_parts i) as (sg & ds & -> & Hsg & Hall & Hne).
  unfold has_point_or_exponent. rewrite existsb_app.
  rewrite (existsb_all_digits _ ds Hall isdigit_not_mark), orb_false_r.
  destruct Hsg as [->|(c & Hc & ->)]; [reflexivity|].
  simpl. destruct (is_sign_cases c Hc); subst; reflexivity.
Qed.

Lemma span_digits_all ds : all_digits ds = true -> span_digits ds = length ds.
Proof.
  intros H. rewrite <- (app_nil_r ds) at 1.
  rewrite span_digits_app by assumption. simpl. lia.
Qed.

Lemma digits_not_space ds :
  all_digits ds = true -> ds <> [] -> span_space ds = 0.
Proof.
  destruct ds as [|d ds]; [congruence|]. intros H _.
  simpl in H. apply andb_prop in H. destruct H as [Hd _].
  apply span_space_head. apply isdigit_not_space. assumption.
Qed.

(** [strtol] reads back the [int] that [print_int] wrote. *)
Lemma strtol_print_int i :
  (INT_MIN <= i <= INT_MAX)%Z -> to_int (fst (strtol (print_int i))) = i.
Proof.
  unfold INT_MIN, INT_MAX. intros Hi.
  assert (Hclamp : clamp_long i = i).
  { unfold clamp_long, LONG_MAX, LONG_MIN.
    destruct (Z.ltb_spec 9223372036854775807 i); [lia|].
    destruct (Z.ltb_spec i (-9223372036854775808)); [lia|reflexivity]. }
  assert (Hto : to_int i = i).
  { unfold to_int. rewrite Z.mod_small by lia. lia. }
  unfold print_int, strtol.
  destruct (Z.ltb_spec i 0) as [Hneg|Hpos].
  - destruct (print_nat_digits (- i)) as [Hall Hne].
    rewrite span_space_head by reflexivity. cbn [skipn sign_len is_sign Ascii.eqb].
    change (is_sign "-") with true. cbn iota. cbn [skipn].
    rewrite span_digits_all by assumption.
    destruct (length (print_nat (- i)) =? 0) eqn:E.
    { apply Nat.eqb_eq in E. destruct (print_nat (- i)); [congruence|discriminate]. }
    cbn [negative fst]. change (Ascii.eqb "-" "-") with true. cbn iota.
    rewrite print_nat_value by lia.
    replace (- - i)%Z with i by lia. rewrite Hclamp. exact Hto.
  - destruct (print_nat_digits i) as [Hall Hne].
    rewrite (digits_not_space _ Hall Hne). cbn [skipn].
    destruct (print_nat i) as [|d ds] eqn:Hp; [congruence|].
    assert (Hd : isdigit d = true) by (simpl in Hall; apply andb_prop in Hall; tauto).
    cbn [sign_len negative]. rewrite (isdigit_not_sign d Hd). cbn [skipn].
    rewrite span_digits_all by assumption.
    cbn [length Nat.eqb fst].
    assert (Hm : Ascii.eqb d "-" = false).
    { destruct (Ascii.eqb d "-") eqn:E; [|reflexivity].
      apply Ascii.eqb_eq in E. subst d. discriminate. }
    rewrite Hm, <- Hp, print_nat_value by lia.
    rewrite Hclamp. exact Hto.
Qed.

Lemma closes_head rest :
  closes rest = true ->
  span_digits rest = 0 /\ point_len rest = 0 /\ exp_len rest = 0.
Proof.
  destruct rest as [|c t]; simpl; [auto|].
  intros H. apply negb_true_iff in H.
  apply orb_false_elim in H. destruct H as [H He].
  apply orb_false_elim in H. destruct H as [Hd Hp].
  rewrite Hd, Hp, He. auto.
Qed.

Lemma print_int_longest i rest :
  closes rest = true -> longest_literal (print_int i) (print_int i ++ rest).
Proof.
  intros Hrest.
  destruct (closes_head rest Hrest) as (Hd & Hp & He).
  destruct (print_int_parts i) as (sg & ds & Hpi & Hsg & Hall & Hne).
  assert (Hm : num_re_match (print_int i ++ rest) = Some (length (print_int i))).
  { rewrite Hpi. unfold num_re_match.
    destruct ds as [|d ds]; [congruence|].
    assert (Hd' : isdigit d = true) by (simpl in Hall; apply andb_prop in Hall; tauto).
    replace ((sg ++ d :: ds) ++ rest) with (sg ++ d :: (ds ++ rest))
      by (rewrite <- app_assoc; reflexivity).
    rewrite (sign_len_app sg d _ Hsg Hd'), skipn_app_length.
    replace (d :: ds ++ rest) with ((d :: ds) ++ rest) by reflexivity.
    rewrite span_digits_app by assumption. rewrite Hd, Nat.add_0_r.
    rewrite skipn_app_length, Hp. cbn [skipn]. rewrite He.
    destruct (length (d :: ds) =? 0) eqn:E; [discriminate|].
    rewrite length_app. f_equal. lia. }
  apply num_re_match_is_longest in Hm.
  rewrite firstn_app, Nat.sub_diag, firstn_all in Hm.
  simpl in Hm. rewrite app_nil_r in Hm. exact Hm.
Qed.

(** *** Scalars read back *)

Lemma parse_int_at fuel json i z rest :
  (INT_MIN <= z <= INT_MAX)%Z -> closes rest = true ->
  skipn i json = print_int z ++ rest ->
  parse (S fuel) json i = Some (JInt z, i + length (print_int z)).
Proof.
  intros Hz Hrest Hsk.
  assert (Hne : print_int z ++ rest <> []).
  { destruct (print_int_parts z) as (sg & ds & -> & _ & _ & Hne).
    destruct sg, ds; try discriminate. congruence. }
  destruct (skipn_split json i _ Hsk Hne) as [Hjson Hlen].
  pose proof (parse_longest_literal fuel (firstn i json) (print_int z) _
                (print_int_longest z rest Hrest)) as H.
  rewrite <- Hjson, Hlen in H. rewrite H.
  rewrite print_int_no_mark, strtol_print_int by assumption.
  reflexivity.
Qed.

Lemma string_loop_plain s : forall str i rest,
  plain_text s = true ->
  string_loop (s ++ dquote :: rest) str i
  = Some (JString (str ++ s), i + length s + 1).
Proof.
  induction s as [|c s IH]; intros str i rest Hs.
  - simpl. rewrite app_nil_r. f_equal. f_equal. lia.
  - simpl in Hs. apply andb_prop in Hs. destruct Hs as [Hc Hs].
    apply negb_true_iff in Hc. apply orb_false_elim in Hc.
    destruct Hc as [Hq Hb]. unfold dquote in Hq.
    cbn [app string_loop]. rewrite Hb.
    change (Ascii.eqb c dquote) with (Ascii.eqb c "034"). rewrite Hq.
    rewrite IH by assumption. rewrite <- app_assoc. simpl.
    f_equal. f_equal. lia.
Qed.

Lemma parse_string_at fuel json i s rest :
  plain_text s = true ->
  skipn i json = dquote :: s ++ dquote :: rest ->
  parse (S fuel) json i = Some (JString s, i + length s + 2).
Proof.
  intros Hs Hsk.
  destruct (skipn_head json i _ _ Hsk) as [Hc Hlt].
  rewrite parse_S. cbv zeta. unfold skip_space. rewrite Hsk.
  rewrite span_space_head by reflexivity. rewrite Nat.add_0_r.
  apply Nat.leb_gt in Hlt. rewrite Hlt, Hc.
  change (isdigit dquote || Ascii.eqb dquote "-" || Ascii.eqb dquote "+") with false.
  change (Ascii.eqb dquote dquote) with true. cbv iota.
  unfold string_branch.
  pose proof (skipn_step json i [dquote] (s ++ dquote :: rest) Hsk) as Hbody.
  cbn [length] in Hbody. rewrite Hbody.
  rewrite string_loop_plain by assumption. simpl.
  f_equal. f_equal. lia.
Qed.

(** *** Dictionary keys *)

Lemma dict_set_fresh k v (res : dict) :
  ~ In k (map fst res) -> dict_set k v res = res ++ [(k, v)].
Proof.
  induction res as [|[k' v'] res IH]; simpl; intros Hk; [reflexivity|].
  destruct (text_eqb k k') eqn:E.
  - apply text_eqb_eq in E. subst k'. tauto.
  - rewrite IH by tauto. reflexivity.
Qed.

Lemma unique_keys_NoDup ks : unique_keys ks = true -> NoDup ks.
Proof.
  induction ks as [|k ks IH]; simpl; intros H; constructor.
  - apply andb_prop in H. destruct H as [H _].
    apply negb_true_iff in H. intros Hin.
    assert (Hex : existsb (text_eqb k) ks = true).
    { apply existsb_exists. exists k. split; [assumption|apply text_eqb_refl]. }
    congruence.
  - apply andb_prop in H. apply IH. tauto.
Qed.

(** Assignments to keys that are new and differ from one another add
    the pairs in order. *)
Lemma assign_all_fresh d : forall res,
  NoDup (map fst (res ++ d)) -> assign_all d res = res ++ d.
Proof.
  induction d as [|[k v] d IH]; intros res Hnd.
  - cbn [assign_all fold_left]. rewrite app_nil_r. reflexivity.
  - cbn [assign_all fold_left fst snd].
    assert (Hfresh : dict_set k v res = res ++ [(k, v)]).
    { apply dict_set_fresh. rewrite map_app in Hnd. cbn [map fst] in Hnd.
      apply NoDup_remove_2 in Hnd. intros Hin. apply Hnd.
      apply in_or_app. auto. }
    rewrite Hfresh. fold (assign_all d (res ++ [(k, v)])).
    rewrite IH; rewrite <- app_assoc; [reflexivity|exact Hnd].
Qed.

(** *** Containers read back *)

Section Reparse.

Variable put : double -> text.

Lemma print_dict d :
  print put (JDict d) = "{" :: join_items (map (print_entry put) d) ++ ["}"].
Proof. reflexivity. Qed.

Lemma print_head v :
  plain_tree v = true ->
  exists c t, print put v = c :: t /\ starts_value c = true.
Proof.
  destruct v as [| |i| |s|l|d]; simpl; try discriminate; intros _.
  - destruct (print_int_parts i) as (sg & ds & -> & Hsg & Hall & Hne).
    destruct ds as [|d ds]; [congruence|].
    assert (Hd : isdigit d = true) by (simpl in Hall; apply andb_prop in Hall; tauto).
    destruct Hsg as [->|(c & Hc & ->)]; simpl.
    + exists d, ds. split; [reflexivity|]. unfold starts_value. rewrite Hd. reflexivity.
    + exists c, (d :: ds). split; [reflexivity|].
      destruct (is_sign_cases c Hc); subst c; reflexivity.
  - eauto.
  - eauto.
  - eauto.
Qed.

(** Where a value stands after white space, the loops find neither
    their closing bracket nor the end of the buffer. *)
Lemma value_ahead json i ws c t :
  all_space ws = true -> starts_value c = true ->
  skipn i json = ws ++ c :: t ->
  (i <? length json) = true
  /\ Ascii.eqb (char_at json i) "]" = false
  /\ Ascii.eqb (char_at json i) "}" = false.
Proof.
  intros Hws Hc Hsk. destruct ws as [|w ws].
  - destruct (skipn_head json i _ _ Hsk) as [-> Hlt].
    split; [apply Nat.ltb_lt; assumption|].
    split; apply starts_value_not; auto.
  - destruct (skipn_head json i _ _ Hsk) as [-> Hlt].
    simpl in Hws. apply andb_prop in Hws. destruct Hws as [Hw _].
    split; [apply Nat.ltb_lt; assumption|].
    split; apply isspace_not; auto.
Qed.

Lemma join_items_more (a b : text) (items : list text) :
  join_items (a :: b :: items) = a ++ "," :: " " :: join_items (b :: items).
Proof. reflexivity. Qed.

Lemma array_items_at l :
  Forall (reparses put) l -> forallb plain_tree l = true ->
  forall json i ws res rest,
    all_space ws = true -> (l = [] -> ws = []) ->
    skipn i json = ws ++ join_items (map (print put) l) ++ "]" :: rest ->
    exists fuel,
      array_loop fuel json res i
      = Some (Return (JList (res ++ l),
                      i + length ws + length (join_items (map (print put) l)) + 1)).
Proof.
  induction l as [|x l IH]; intros Hall Hplain json i ws res rest Hws Hnil Hsk.
  - rewrite (Hnil eq_refl) in *. cbn [map join_items app] in Hsk.
    destruct (skipn_head json i _ _ Hsk) as [Hc Hlt].
    exists 1. rewrite array_loop_S.
    apply Nat.ltb_lt in Hlt. rewrite Hlt, Hc.
    change (Ascii.eqb "]" "]") with true. cbv iota.
    rewrite app_nil_r. cbn [map join_items length]. repeat f_equal. lia.
  - inversion Hall as [|? ? Hx Hl]; subst.
    cbn [forallb] in Hplain. apply andb_prop in Hplain.
    destruct Hplain as [Hpx Hpl].
    destruct (print_head x Hpx) as (c & t & Hhead & Hc).
    destruct l as [|y l].
    + cbn [map join_items] in *.
      destruct (Hx json i ws ("]" :: rest) Hws eq_refl Hsk) as [f1 Hf1].
      assert (Hnext : skipn (i + length ws + length (print put x)) json = "]" :: rest).
      { rewrite <- Nat.add_assoc, <- length_app.
        apply skipn_step. rewrite Hsk, <- app_assoc. reflexivity. }
      destruct (skipn_head json _ _ _ Hnext) as [Hcn Hltn].
      rewrite Hhead in Hsk. cbn [app] in Hsk.
      destruct (value_ahead json i ws c _ Hws Hc Hsk) as (Hlt & Hb & _).
      exists (S (S f1)). rewrite array_loop_S, Hlt, Hb.
      apply fuel_step in Hf1. rewrite Hf1, Hcn.
      change (Ascii.eqb "]" ",") with false. cbv iota.
      rewrite array_loop_S.
      apply Nat.ltb_lt in Hltn. rewrite Hltn, Hcn.
      change (Ascii.eqb "]" "]") with true. cbv iota.
      reflexivity.
    + rewrite (map_cons (print put) x (y :: l)), (map_cons (print put) y l) in *.
      rewrite join_items_more in *. rewrite <- (map_cons (print put) y l) in *.
      set (J := join_items (map (print put) (y :: l))) in *.
      assert (Hsk' : skipn i json
                     = ws ++ print put x ++ "," :: " " :: J ++ "]" :: rest).
      { rewrite Hsk, <- !app_assoc. reflexivity. }
      destruct (Hx json i ws ("," :: " " :: J ++ "]" :: rest) Hws eq_refl Hsk')
        as [f1 Hf1].
      assert (Hnext : skipn (i + length ws + length (print put x)) json
                      = "," :: " " :: J ++ "]" :: rest).
      { rewrite <- Nat.add_assoc, <- length_app.
        apply skipn_step. rewrite Hsk', <- app_assoc. reflexivity. }
      destruct (skipn_head json _ _ _ Hnext) as [Hcn Hltn].
      assert (Hnext' : skipn (i + length ws + length (print put x) + 1) json
                       = [" "%char] ++ J ++ "]" :: rest).
      { apply (skipn_step json _ [","%char]). exact Hnext. }
      destruct (IH Hl Hpl json _ [" "%char] (res ++ [x]) rest eq_refl
                  ltac:(discriminate) Hnext') as [f2 Hf2].
      rewrite Hhead in Hsk'. cbn [app] in Hsk'.
      destruct (value_ahead json i ws c _ Hws Hc Hsk') as (Hlt & Hb & _).
      exists (S (Nat.max f1 f2)). rewrite array_loop_S, Hlt, Hb.
      rewrite (parse_fuel_mono f1 (Nat.max f1 f2) _ _ _ ltac:(lia) Hf1).
      rewrite Hcn. change (Ascii.eqb "," ",") with true. cbv iota.
      rewrite (array_loop_fuel_mono f2 (Nat.max f1 f2) _ _ _ _ ltac:(lia) Hf2).
      rewrite <- app_assoc. cbn [app].
      rewrite length_app. cbn [length]. do 3 f_equal. lia.
Qed.

(** *** Dictionaries read back *)

Lemma print_entry_eq k v :
  print_entry put (k, v)
  = dquote :: k ++ dquote :: ":" :: " " :: print put v.
Proof. reflexivity. Qed.

(** One turn of the object loop over a pair that [print] wrote. *)
Lemma entry_at json i ws k v tail :
  all_space ws = true -> plain_text k = true -> reparses put v ->
  closes tail = true ->
  skipn i json = ws ++ print_entry put (k, v) ++ tail ->
  exists f,
    skipn (i + length ws + length (print_entry put (k, v))) json = tail
    /\ forall res fuel,
        f <= fuel ->
        object_loop (S fuel) json res i
        = object_loop fuel json (dict_set k v res)
            (let ve := i + length ws + length (print_entry put (k, v)) in
             if Ascii.eqb (char_at json ve) "," then ve + 1 else ve).
Proof.
  intros Hws Hk Hv Htail Hsk. rewrite print_entry_eq in *.
  assert (Hsk0 : skipn i json
                 = ws ++ dquote :: k ++ dquote :: ":" :: " " :: print put v ++ tail).
  { rewrite Hsk. cbn [app]. rewrite <- app_assoc. reflexivity. }
  destruct (value_ahead json i ws dquote _ Hws eq_refl Hsk0) as (Hlt & _ & Hb).
  assert (Hskk : skipn (i + length ws) json
                 = dquote :: k ++ dquote :: ":" :: " " :: print put v ++ tail).
  { apply (skipn_step json i ws). exact Hsk0. }
  set (ke := i + length ws + length k + 2).
  assert (Hske : skipn ke json = ":" :: " " :: print put v ++ tail).
  { unfold ke. rewrite <- Nat.add_assoc.
    replace (length k + 2) with (length (dquote :: k ++ [dquote]))
      by (cbn [length]; rewrite length_app; cbn [length]; lia).
    apply skipn_step. rewrite Hskk. cbn [app]. rewrite <- app_assoc. reflexivity. }
  destruct (skipn_head json ke _ _ Hske) as [Hcke _].
  assert (Hskv : skipn (ke + 1) json = [" "%char] ++ print put v ++ tail).
  { apply (skipn_step json ke [":"%char]). exact Hske. }
  destruct (Hv json (ke + 1) [" "%char] tail eq_refl Htail Hskv) as [f1 Hf1].
  set (ve := i + length ws
             + length (dquote :: k ++ dquote :: ":" :: " " :: print put v)).
  assert (Hve : ke + 1 + length [" "%char] + length (print put v) = ve).
  { unfold ve, ke. cbn [length]. rewrite length_app. cbn [length]. lia. }
  rewrite Hve in Hf1.
  exists (Nat.max 1 f1). split.
  - rewrite <- Hve, <- Nat.add_assoc, <- length_app.
    apply skipn_step. rewrite Hskv, <- app_assoc. reflexivity.
  - intros res fuel Hfuel. rewrite object_loop_S, Hlt, Hb.
    destruct fuel as [|fuel]; [lia|].
    rewrite (parse_leading_space (S fuel) json i ws dquote _ Hws eq_refl Hsk0).
    rewrite (parse_string_at fuel json (i + length ws) k _ Hk Hskk).
    fold ke. rewrite Hcke.
    change (Ascii.eqb ":" ":") with true. cbv iota.
    rewrite (parse_fuel_mono f1 (S fuel) _ _ _ ltac:(lia) Hf1).
    reflexivity.
Qed.

Lemma dict_entries_at d :
  Forall (fun kv => reparses put (snd kv)) d ->
  forallb (fun kv => plain_text (fst kv) && plain_tree (snd kv)) d = true ->
  forall json i ws res rest,
    all_space ws = true -> (d = [] -> ws = []) ->
    skipn i json = ws ++ join_items (map (print_entry put) d) ++ "}" :: rest ->
    exists fuel,
      object_loop fuel json res i
      = Some (Return (JDict (assign_all d res),
                      i + length ws
                      + length (join_items (map (print_entry put) d)) + 1)).
Proof.
  induction d as [|[k v] d IH];
    intros Hall Hplain json i ws res rest Hws Hnil Hsk.
  - rewrite (Hnil eq_refl) in *. cbn [map join_items app] in Hsk.
    destruct (skipn_head json i _ _ Hsk) as [Hc Hlt].
    exists 1. rewrite object_loop_S.
    apply Nat.ltb_lt in Hlt. rewrite Hlt, Hc.
    change (Ascii.eqb "}" "}") with true. cbv iota.
    cbn [map join_items length assign_all fold_left]. do 3 f_equal. lia.
  - inversion Hall as [|? ? Hv Hd]; subst. cbn [snd] in Hv.
    cbn [forallb fst snd] in Hplain. apply andb_prop in Hplain.
    destruct Hplain as [Hkv Hpd]. apply andb_prop in Hkv.
    destruct Hkv as [Hk Hpv].
    destruct d as [|kv' d].
    + cbn [map join_items] in *.
      destruct (entry_at json i ws k v ("}" :: rest) Hws Hk Hv eq_refl Hsk)
        as (f & Htail & Hstep).
      destruct (skipn_head json _ _ _ Htail) as [Hc Hlt].
      exists (S (S f)). rewrite (Hstep res (S f) ltac:(lia)).
      cbv zeta. rewrite Hc. change (Ascii.eqb "}" ",") with false. cbv iota.
      rewrite object_loop_S. apply Nat.ltb_lt in Hlt. rewrite Hlt, Hc.
      change (Ascii.eqb "}" "}") with true. cbv iota.
      reflexivity.
    + rewrite (map_cons (print_entry put) (k, v) (kv' :: d)),
        (map_cons (print_entry put) kv' d) in *.
      rewrite join_items_more in *. rewrite <- (map_cons (print_entry put) kv' d) in *.
      set (J := join_items (map (print_entry put) (kv' :: d))) in *.
      assert (Hsk' : skipn i json
                     = ws ++ print_entry put (k, v)
                          ++ "," :: " " :: J ++ "}" :: rest).
      { rewrite Hsk, <- !app_assoc. reflexivity. }
      destruct (entry_at json i ws k v ("," :: " " :: J ++ "}" :: rest)
                  Hws Hk Hv eq_refl Hsk')
        as (f & Htail & Hstep).
      destruct (skipn_head json _ _ _ Htail) as [Hc Hlt].
      assert (Hnext : skipn (i + length ws + length (print_entry put (k, v)) + 1) json
                      = [" "%char] ++ J ++ "}" :: rest).
      { apply (skipn_step json _ [","%char]). exact Htail. }
      destruct (IH Hd Hpd json _ [" "%char] (dict_set k v res) rest eq_refl
                  ltac:(discriminate) Hnext) as [f2 Hf2].
      exists (S (Nat.max f f2)). rewrite (Hstep res (Nat.max f f2) ltac:(lia)).
      cbv zeta. rewrite Hc. change (Ascii.eqb "," ",") with true. cbv iota.
      rewrite (object_loop_fuel_mono f2 (Nat.max f f2) _ _ _ _ ltac:(lia) Hf2).
      rewrite length_app. cbn [length]. do 3 f_equal. lia.
Qed.

(** Every object literal laid out by [print] parses to the dictionary
    that its assignments build, in order. *)
Lemma object_literal_parses pairs :
  Forall (fun kv => reparses put (snd kv)) pairs ->
  forallb (fun kv => plain_text (fst kv) && plain_tree (snd kv)) pairs = true ->
  forall json i ws rest,
    all_space ws = true ->
    skipn i json = ws ++ object_literal put pairs ++ rest ->
    exists fuel,
      parse fuel json i
      = Some (JDict (assign_all pairs []),
              i + length ws + length (object_literal put pairs)).
Proof.
  intros Hall Hplain json i ws rest Hws Hsk. unfold object_literal in *.
  set (J := join_items (map (print_entry put) pairs)) in *.
  assert (Hsk0 : skipn i json = ws ++ "{" :: J ++ "}" :: rest).
  { rewrite Hsk. cbn [app]. rewrite <- app_assoc. reflexivity. }
  assert (Hskj : skipn (i + length ws) json = "{" :: J ++ "}" :: rest).
  { apply (skipn_step json i ws). exact Hsk0. }
  destruct (skipn_head json _ _ _ Hskj) as [Hc Hlt].
  assert (Hitems : skipn (i + length ws + 1) json = [] ++ J ++ "}" :: rest).
  { apply (skipn_step json _ ["{"%char]). exact Hskj. }
  destruct (dict_entries_at pairs Hall Hplain json _ [] [] rest eq_refl
              ltac:(reflexivity) Hitems) as [f Hf].
  exists (S f).
  rewrite (parse_leading_space (S f) json i ws "{" _ Hws eq_refl Hsk0).
  rewrite parse_S. cbv zeta. unfold skip_space. rewrite Hskj.
  rewrite span_space_head by reflexivity. rewrite Nat.add_0_r.
  apply Nat.leb_gt in Hlt. rewrite Hlt, Hc.
  change (isdigit "{" || Ascii.eqb "{" "-" || Ascii.eqb "{" "+") with false.
  change (Ascii.eqb "{" dquote) with false.
  change (Ascii.eqb "{" "[") with false.
  change (Ascii.eqb "{" "{") with true. cbv iota.
  rewrite Hf. cbn [app length]. rewrite length_app. cbn [length].
  do 2 f_equal. unfold J. lia.
Qed.

(** *** Every plain tree reads back *)

Lemma reparses_int z : (INT_MIN <= z <= INT_MAX)%Z -> reparses put (JInt z).
Proof.
  intros Hz json i ws rest Hws Hrest Hsk. cbn [print] in *.
  destruct (print_head (JInt z)) as (c & t & Hhead & Hc).
  { cbn [plain_tree]. apply andb_true_intro. split; apply Z.leb_le; lia. }
  cbn [print] in Hhead.
  assert (Hsk0 : skipn i json = ws ++ c :: t ++ rest).
  { rewrite Hsk, Hhead. reflexivity. }
  exists 1.
  rewrite (parse_leading_space 1 json i ws c _ Hws
             (starts_value_not_space c Hc) Hsk0).
  apply (parse_int_at 0 json _ z rest); [assumption|assumption|].
  apply (skipn_step json i ws). exact Hsk.
Qed.

Lemma reparses_string s : plain_text s = true -> reparses put (JString s).
Proof.
  intros Hs json i ws rest Hws Hrest Hsk. cbn [print] in *.
  assert (Hsk0 : skipn i json = ws ++ dquote :: s ++ dquote :: rest).
  { rewrite Hsk. cbn [app]. rewrite <- app_assoc. reflexivity. }
  exists 1.
  rewrite (parse_leading_space 1 json i ws dquote _ Hws eq_refl Hsk0).
  rewrite (parse_string_at 0 json (i + length ws) s rest Hs).
  - cbn [length]. rewrite length_app. cbn [length]. do 2 f_equal. lia.
  - apply (skipn_step json i ws). exact Hsk0.
Qed.

Lemma reparses_list l :
  Forall (reparses put) l -> forallb plain_tree l = true ->
  reparses put (JList l).
Proof.
  intros Hall Hplain json i ws rest Hws Hrest Hsk. cbn [print] in *.
  set (J := join_items (map (print put) l)) in *.
  assert (Hsk0 : skipn i json = ws ++ "[" :: J ++ "]" :: rest).
  { rewrite Hsk. cbn [app]. rewrite <- app_assoc. reflexivity. }
  assert (Hskj : skipn (i + length ws) json = "[" :: J ++ "]" :: rest).
  { apply (skipn_step json i ws). exact Hsk0. }
  destruct (skipn_head json _ _ _ Hskj) as [Hc Hlt].
  assert (Hitems : skipn (i + length ws + 1) json = [] ++ J ++ "]" :: rest).
  { apply (skipn_step json _ ["["%char]). exact Hskj. }
  destruct (array_items_at l Hall Hplain json _ [] [] rest eq_refl
              ltac:(reflexivity) Hitems) as [f Hf].
  exists (S f).
  rewrite (parse_leading_space (S f) json i ws "[" _ Hws eq_refl Hsk0).
  rewrite parse_S. cbv zeta. unfold skip_space. rewrite Hskj.
  rewrite span_space_head by reflexivity. rewrite Nat.add_0_r.
  apply Nat.leb_gt in Hlt. rewrite Hlt, Hc.
  change (isdigit "[" || Ascii.eqb "[" "-" || Ascii.eqb "[" "+") with false.
  change (Ascii.eqb "[" dquote) with false.
  change (Ascii.eqb "[" "[") with true. cbv iota.
  rewrite Hf. cbn [app length]. rewrite length_app. cbn [length].
  do 2 f_equal. unfold J. lia.
Qed.

Lemma reparses_dict d :
  Forall (fun kv => reparses put (snd kv)) d ->
  plain_tree (JDict d) = true ->
  reparses put (JDict d).
Proof.
  intros Hall Hplain json i ws rest Hws Hrest Hsk.
  cbn [plain_tree] in Hplain. apply andb_prop in Hplain.
  destruct Hplain as [Huniq Hplain]. apply unique_keys_NoDup in Huniq.
  destruct (object_literal_parses d Hall Hplain json i ws rest Hws Hsk)
    as [fuel Hfuel].
  exists fuel. rewrite Hfuel.
  rewrite (assign_all_fresh d [] Huniq). reflexivity.
Qed.

Lemma plain_tree_reparses v : plain_tree v = true -> reparses put v.
Proof.
  induction v as [| | | | |l IH|d IH] using JSONObject_ind;
    try discriminate; intros Hp.
  - apply reparses_int. cbn [plain_tree] in Hp. apply andb_prop in Hp.
    destruct Hp as [H1 H2]. apply Z.leb_le in H1. apply Z.leb_le in H2. lia.
  - apply reparses_string. exact Hp.
  - cbn [plain_tree] in Hp. apply reparses_list; [|exact Hp].
    induction IH as [|x l Hx _ IHl]; constructor.
    + apply Hx. cbn [forallb] in Hp. apply andb_prop in Hp. tauto.
    + apply IHl. cbn [forallb] in Hp. apply andb_prop in Hp. tauto.
  - apply reparses_dict; [|exact Hp].
    cbn [plain_tree] in Hp. apply andb_prop in Hp. destruct Hp as [_ Hp].
    induction IH as [|[k x] d Hx _ IHd]; constructor.
    + cbn [snd] in *. apply Hx. cbn [forallb fst snd] in Hp.
      apply andb_prop in Hp. destruct Hp as [Hp _].
      apply andb_prop in Hp. tauto.
    + apply IHd. cbn [forallb] in Hp. apply andb_prop in Hp. tauto.
Qed.

End Reparse.

(** C9, as amended. For every tree made of Int values, String values
    with neither a double quote nor a backslash, Lists of such trees and
    Dicts whose keys are such text and whose values are such trees, the
    text that [print] writes parses back to the same tree, with the
    cursor at the end of the text. Trees that hold a Null, a Bool or a
    Double are left out. *)
Theorem plain_tree_round_trip put_double v :
  plain_tree v = true ->
  returns (print put_double v) 0 v (length (print put_double v)).
Proof.
  intros Hv.
  destruct (plain_tree_reparses put_double v Hv (print put_double v) 0 [] []
              eq_refl eq_refl) as [fuel Hfuel].
  - cbn [app]. rewrite app_nil_r. reflexivity.
  - exists fuel. exact Hfuel.
Qed.

Lemma plain_tree_round_trip_witness :
  plain_tree (JDict [(chars "k", JList [JInt (-42); JString (chars "x y")]);
                     (chars "n", JInt 7)]) = true
  /\ returns (json_text "{'k': [-42, 'x y'], 'n': 7}") 0
       (JDict [(chars "k", JList [JInt (-42); JString (chars "x y")]);
               (chars "n", JInt 7)]) 27.
Proof.
  split; [reflexivity|].
  exact (plain_tree_round_trip (fun d => d)
           (JDict [(chars "k", JList [JInt (-42); JString (chars "x y")]);
                   (chars "n", JInt 7)]) eq_refl).
Defined.

(** C9 as stated fails: [[,]] parses to the list that holds one Null;
    [print] writes that list as [[null]]; and on [[null]] the array
    branch never returns, so parsing the text again gives no tree. *)
Lemma list_of_null_is_not_read_back :
  returns (chars "[,]") 0 (JList [JNull]) 3
  /\ (forall put_double, print put_double (JList [JNull]) = chars "[null]")
  /\ diverges (chars "[null]") 0.
Proof.
  split; [exists 3; reflexivity|].
  split; [reflexivity|].
  apply (array_branch_stuck (chars "null]")).
  apply array_loop_stuck; reflexivity.
Qed.


(** Why a Double is left out of the round trip. The stream writes the
    [double] 1.0 as the text [1]; with a [put_double] that does so, the
    literal [1.0] parses to a Double, is printed as [1], and reads back
    as Int 1. *)
Remark double_reads_back_as_int put_double :
  put_double (chars "1.0") = chars "1" ->
  returns (chars "1.0") 0 (JDouble (chars "1.0")) 3
  /\ returns (print put_double (JDouble (chars "1.0"))) 0 (JInt 1) 1.
Proof.
  intros Hput. split; [exists 1; reflexivity|].
  cbn [print]. rewrite Hput. exists 1. reflexivity.
Qed.

(** ** The text before the cursor *)

Lemma skipn_app_add (pre s : text) i :
  skipn (length pre + i) (pre ++ s) = skipn i s.
Proof.
  rewrite Nat.add_comm, <- skipn_skipn, skipn_app_length. reflexivity.
Qed.

Lemma string_loop_shift n s : forall str i,
  string_loop s str (n + i) = option_map (shift n) (string_loop s str i).
Proof.
  assert (H : forall m s str i,
             length s <= m ->
             string_loop s str (n + i) = option_map (shift n) (string_loop s str i)).
  { clear s. induction m as [|m IH]; intros s str i Hlen.
    - destruct s; [reflexivity|simpl in Hlen; lia].
    - destruct s as [|c t]; [reflexivity|]. simpl in Hlen. cbn [string_loop].
      destruct (Ascii.eqb c "\").
      + destruct t as [|d t']; [reflexivity|]. simpl in Hlen.
        rewrite <- Nat.add_assoc. apply IH. lia.
      + destruct (Ascii.eqb c dquote).
        * unfold shift. cbn [option_map fst snd]. rewrite Nat.add_assoc. reflexivity.
        * rewrite <- Nat.add_assoc. apply IH. lia. }
  intros str i. apply (H (length s)). lia.
Qed.

Lemma number_branch_shift pre s i :
  number_branch (pre ++ s) (length pre + i)
  = option_map (shift (length pre)) (number_branch s i).
Proof.
  unfold number_branch. rewrite skipn_app_add.
  destruct (regex_search (skipn i s)) as [str|]; [|reflexivity].
  destruct (try_parse_int str) as [is_int intValue].
  destruct is_int.
  - unfold shift. cbn [option_map fst snd]. rewrite Nat.add_assoc. reflexivity.
  - destruct (try_parse_double str) as [is_double doubleValue].
    destruct is_double; [|reflexivity].
    unfold shift. cbn [option_map fst snd]. rewrite Nat.add_assoc. reflexivity.
Qed.

Lemma string_branch_shift pre s i :
  string_branch (pre ++ s) (length pre + i)
  = option_map (shift (length pre)) (string_branch s i).
Proof.
  unfold string_branch.
  rewrite <- Nat.add_assoc, skipn_app_add. apply string_loop_shift.
Qed.

Lemma separator_shift pre s n c :
  (if Ascii.eqb (char_at (pre ++ s) (length pre + n)) c
   then length pre + n + 1 else length pre + n)
  = length pre + (if Ascii.eqb (char_at s n) c then n + 1 else n).
Proof. rewrite char_at_app. destruct (Ascii.eqb (char_at s n) c); lia. Qed.

Lemma shift_all pre s fuel :
  (forall i,
      parse fuel (pre ++ s) (length pre + i)
      = option_map (shift (length pre)) (parse fuel s i))
  /\ (forall res i,
      array_loop fuel (pre ++ s) res (length pre + i)
      = option_map (shift_flow (length pre)) (array_loop fuel s res i))
  /\ (forall res i,
      object_loop fuel (pre ++ s) res (length pre + i)
      = option_map (shift_flow (length pre)) (object_loop fuel s res i)).
Proof.
  induction fuel as [|fuel (IHp & IHa & IHo)]; [repeat split; reflexivity|].
  assert (Hlt : forall i, (length pre + i <? length (pre ++ s)) = (i <? length s)).
  { intros i. rewrite length_app.
    destruct (Nat.ltb_spec i (length s)); [apply Nat.ltb_lt|apply Nat.ltb_ge]; lia. }
  split; [|split].
  - intros i. rewrite !parse_S. cbv zeta.
    assert (Hskip : skip_space (pre ++ s) (length pre + i)
                    = length pre + skip_space s i).
    { unfold skip_space. rewrite skipn_app_add. lia. }
    rewrite Hskip. set (p := skip_space s i).
    assert (Hend : (length (pre ++ s) <=? length pre + p) = (length s <=? p)).
    { rewrite length_app.
      destruct (Nat.leb_spec (length s) p); [apply Nat.leb_le|apply Nat.leb_gt]; lia. }
    rewrite Hend, char_at_app.
    destruct (length s <=? p); [reflexivity|].
    rewrite number_branch_shift, string_branch_shift.
    rewrite <- !Nat.add_assoc, IHa, IHo.
    destruct (isdigit (char_at s p) || Ascii.eqb (char_at s p) "-"
              || Ascii.eqb (char_at s p) "+").
    { destruct (number_branch s p) as [r|]; [reflexivity|].
      cbn [option_map].
      destruct (Ascii.eqb (char_at s p) dquote).
      - destruct (string_branch s p) as [r|]; [reflexivity|]. cbn [option_map].
        destruct (Ascii.eqb (char_at s p) "[").
        + destruct (array_loop fuel s [] (p + 1)) as [[r|]|]; try reflexivity.
          cbn [option_map shift_flow].
          destruct (Ascii.eqb (char_at s p) "{"); [|reflexivity].
          destruct (object_loop fuel s [] (p + 1)) as [[r|]|]; reflexivity.
        + destruct (Ascii.eqb (char_at s p) "{"); [|reflexivity].
          destruct (object_loop fuel s [] (p + 1)) as [[r|]|]; reflexivity.
      - destruct (Ascii.eqb (char_at s p) "[").
        + destruct (array_loop fuel s [] (p + 1)) as [[r|]|]; try reflexivity.
          cbn [option_map shift_flow].
          destruct (Ascii.eqb (char_at s p) "{"); [|reflexivity].
          destruct (object_loop fuel s [] (p + 1)) as [[r|]|]; reflexivity.
        + destruct (Ascii.eqb (char_at s p) "{"); [|reflexivity].
          destruct (object_loop fuel s [] (p + 1)) as [[r|]|]; reflexivity. }
    destruct (Ascii.eqb (char_at s p) dquote).
    + destruct (string_branch s p) as [r|]; [reflexivity|]. cbn [option_map].
      destruct (Ascii.eqb (char_at s p) "[").
      * destruct (array_loop fuel s [] (p + 1)) as [[r|]|]; try reflexivity.
        cbn [option_map shift_flow].
        destruct (Ascii.eqb (char_at s p) "{"); [|reflexivity].
        destruct (object_loop fuel s [] (p + 1)) as [[r|]|]; reflexivity.
      * destruct (Ascii.eqb (char_at s p) "{"); [|reflexivity].
        destruct (object_loop fuel s [] (p + 1)) as [[r|]|]; reflexivity.
    + destruct (Ascii.eqb (char_at s p) "[").
      * destruct (array_loop fuel s [] (p + 1)) as [[r|]|]; try reflexivity.
        cbn [option_map shift_flow].
        destruct (Ascii.eqb (char_at s p) "{"); [|reflexivity].
        destruct (object_loop fuel s [] (p + 1)) as [[r|]|]; reflexivity.
      * destruct (Ascii.eqb (char_at s p) "{"); [|reflexivity].
        destruct (object_loop fuel s [] (p + 1)) as [[r|]|]; reflexivity.
  - intros res i. rewrite !array_loop_S, Hlt, char_at_app.
    destruct (i <? length s); [|reflexivity].
    destruct (Ascii.eqb (char_at s i) "]").
    { unfold shift. cbn [option_map shift_flow fst snd].
      replace (length pre + i + 1) with (length pre + (i + 1)) by lia.
      reflexivity. }
    rewrite IHp. destruct (parse fuel s i) as [[obj next]|]; [|reflexivity].
    cbn [option_map shift fst snd]. rewrite separator_shift. apply IHa.
  - intros res i. rewrite !object_loop_S, Hlt, char_at_app.
    destruct (i <? length s); [|reflexivity].
    destruct (Ascii.eqb (char_at s i) "}").
    { unfold shift. cbn [option_map shift_flow fst snd].
      replace (length pre + i + 1) with (length pre + (i + 1)) by lia.
      reflexivity. }
    rewrite IHp. destruct (parse fuel s i) as [[keyobj ke]|]; [|reflexivity].
    cbn [option_map shift fst snd]. rewrite separator_shift, IHp.
    match goal with
    | |- context [parse fuel s ?j] =>
        destruct (parse fuel s j) as [[valobj ve]|]; [|reflexivity]
    end.
    cbn [option_map shift fst snd]. rewrite separator_shift. apply IHo.
Qed.

(** X1. [parse] never looks behind the cursor: parsing a buffer from an
    offset gives what parsing the text from that offset on gives from
    its start, with the cursor moved by the length of what comes
    before. *)
Theorem parse_ignores_text_before_cursor fuel pre s i :
  parse fuel (pre ++ s) (length pre + i)
  = option_map (shift (length pre)) (parse fuel s i).
Proof. apply shift_all. Qed.

(** ** Where the cursor ends, and what is returned *)

(** X2. From a start offset within the buffer the returned cursor is
    never past the end of the buffer. *)
Theorem cursor_stays_in_buffer fuel json start v next :
  start <= length json ->
  parse fuel json start = Some (v, next) ->
  next <= length json.
Proof.
  intros Hs H. apply (proj1 (cursor_bounds fuel)) in H; [lia|exact Hs].
Qed.

Lemma cursor_stays_in_buffer_witness :
  1 <= length (chars "[12 ,")
  /\ parse 1 (chars "[12 ,") 1 = Some (JInt 12, 3)
  /\ 3 <= length (chars "[12 ,").
Proof.
  split; [vm_compute; lia|]. split; [reflexivity|].
  apply (cursor_stays_in_buffer 1 (chars "[12 ,") 1 (JInt 12) 3).
  - vm_compute; lia.
  - reflexivity.
Defined.

Lemma num_re_match_pos s m : num_re_match s = Some m -> 0 < m.
Proof.
  unfold num_re_match.
  destruct (span_digits (skipn (sign_len s) s) =? 0) eqn:E; [discriminate|].
  apply Nat.eqb_neq in E. intros H. inversion H. lia.
Qed.

Lemma regex_search_literal s str :
  regex_search s = Some str -> number_literal str /\ str <> [].
Proof.
  induction s as [|c s IH].
  - intros H. compute in H. discriminate.
  - cbn [regex_search]. destruct (num_re_match (c :: s)) as [m|] eqn:Hm.
    + intros H. inversion H; subst str.
      destruct (num_re_match_sound _ _ Hm) as [Hlit Hle].
      split; [exact Hlit|].
      apply num_re_match_pos in Hm. destruct m; [lia|]. discriminate.
    + exact IH.
Qed.

Lemma number_branch_value json start v next :
  number_branch json start = Some (v, next) ->
  v <> JNull /\ start < next.
Proof.
  unfold number_branch.
  destruct (regex_search (skipn start json)) as [str|] eqn:Hre; [|discriminate].
  apply regex_search_literal in Hre. destruct Hre as [_ Hne].
  assert (Hlen : 0 < length str) by (destruct str; [congruence|simpl; lia]).
  destruct (try_parse_int str) as [is_int intValue]. destruct is_int.
  - intros H. inversion H; subst. split; [discriminate|lia].
  - destruct (try_parse_double str) as [is_double doubleValue].
    destruct is_double; [|discriminate].
    intros H. inversion H; subst. split; [discriminate|lia].
Qed.

Lemma string_loop_value s : forall str i v next,
  string_loop s str i = Some (v, next) -> v <> JNull.
Proof.
  assert (H : forall m s str i v next,
             length s <= m -> string_loop s str i = Some (v, next) -> v <> JNull).
  { clear s. induction m as [|m IH]; intros s str i v next Hlen.
    - destruct s; [discriminate|simpl in Hlen; lia].
    - destruct s as [|c t]; [discriminate|]. simpl in Hlen. cbn [string_loop].
      destruct (Ascii.eqb c "\").
      + destruct t as [|d t']; [discriminate|]. simpl in Hlen.
        apply IH. lia.
      + destruct (Ascii.eqb c dquote).
        * intros H. inversion H. discriminate.
        * apply IH. lia. }
  intros str i v next. apply (H (length s)). lia.
Qed.

Lemma array_loop_value fuel : forall json res i v next,
  array_loop fuel json res i = Some (Return (v, next)) -> v <> JNull.
Proof.
  induction fuel as [|fuel IH]; intros json res i v next; [discriminate|].
  rewrite array_loop_S.
  destruct (i <? length json); [|discriminate].
  destruct (Ascii.eqb _ "]").
  - intros H. inversion H. discriminate.
  - destruct (parse fuel json i) as [[obj n]|]; [|discriminate]. apply IH.
Qed.

Lemma object_loop_value fuel : forall json res i v next,
  object_loop fuel json res i = Some (Return (v, next)) -> v <> JNull.
Proof.
  induction fuel as [|fuel IH]; intros json res i v next; [discriminate|].
  rewrite object_loop_S.
  destruct (i <? length json); [|discriminate].
  destruct (Ascii.eqb _ "}").
  - intros H. inversion H. discriminate.
  - destruct (parse fuel json i) as [[keyobj ke]|]; [|discriminate].
    match goal with
    | |- match parse fuel json ?j with _ => _ end = _ -> _ =>
        destruct (parse fuel json j) as [[valobj ve]|]; [|discriminate]
    end.
    apply IH.
Qed.

(** X3. Null is the one value that [parse] returns without consuming
    anything: with Null the cursor is where the leading white space
    ends, and with any other value it is beyond that place. *)
Theorem null_iff_nothing_consumed fuel json start v next :
  parse fuel json start = Some (v, next) ->
  (v = JNull -> next = skip_space json start)
  /\ (v <> JNull -> skip_space json start < next).
Proof.
  intros H. destruct fuel as [|fuel]; [discriminate|].
  apply parse_S_inv in H. cbv zeta in H.
  set (p := skip_space json start) in *.
  destruct H as [[_ H]|[Hlt [H|[H|[H|[H|H]]]]]].
  - inversion H; subst. split; [reflexivity|congruence].
  - apply number_branch_value in H. destruct H as [Hv Hn].
    split; [congruence|intros _; exact Hn].
  - pose proof (string_branch_bounds json p v next Hlt H) as Hb.
    unfold string_branch in H. apply string_loop_value in H.
    split; [congruence|intros _; lia].
  - pose proof (proj1 (proj2 (cursor_bounds fuel)) json [] (p + 1) v next
                  ltac:(lia) H) as Hb.
    apply array_loop_value in H. split; [congruence|intros _; lia].
  - pose proof (proj2 (proj2 (cursor_bounds fuel)) json [] (p + 1) v next
                  ltac:(lia) H) as Hb.
    apply object_loop_value in H. split; [congruence|intros _; lia].
  - inversion H; subst. split; [reflexivity|congruence].
Qed.

Lemma null_iff_nothing_consumed_witness :
  parse 2 (chars " [] x") 0 = Some (JList [], 3)
  /\ skip_space (chars " [] x") 0 < 3.
Proof.
  split; [reflexivity|].
  apply (proj2 (null_iff_nothing_consumed 2 (chars " [] x") 0 (JList []) 3 eq_refl)).
  discriminate.
Defined.


(** ** The shape of what is returned *)

Lemma to_int_range z : (INT_MIN <=? to_int z)%Z && (to_int z <=? INT_MAX)%Z = true.
Proof.
  unfold to_int, INT_MIN, INT_MAX.
  pose proof (Z.mod_pos_bound (z + 2147483648) 4294967296 eq_refl).
  apply andb_true_intro. split; apply Z.leb_le; lia.
Qed.

Lemma NoDup_unique_keys ks : NoDup ks -> unique_keys ks = true.
Proof.
  induction 1 as [|k ks Hnotin Hnd IH]; [reflexivity|].
  cbn [unique_keys]. rewrite IH, andb_true_r. apply negb_true_iff.
  destruct (existsb (text_eqb k) ks) eqn:E; [|reflexivity].
  apply existsb_exists in E. destruct E as (k' & Hin & Hk).
  apply text_eqb_eq in Hk. subst k'. contradiction.
Qed.

Lemma dict_set_shape k v (d : dict) :
  parsed_shape v = true ->
  forallb (fun kv => parsed_shape (snd kv)) d = true ->
  forallb (fun kv => parsed_shape (snd kv)) (dict_set k v d) = true.
Proof.
  intros Hv. induction d as [|[k' v'] d IH]; cbn [dict_set forallb snd].
  - intros _. rewrite Hv. reflexivity.
  - intros H. apply andb_prop in H. destruct H as [Hv' Hd].
    destruct (text_eqb k k'); cbn [forallb snd].
    + rewrite Hv, Hd. reflexivity.
    + rewrite Hv', IH by assumption. reflexivity.
Qed.

Lemma number_branch_shape json start v next :
  number_branch json start = Some (v, next) -> parsed_shape v = true.
Proof.
  unfold number_branch.
  destruct (regex_search (skipn start json)) as [str|]; [|discriminate].
  unfold try_parse_int. destruct (strtol str) as [z e].
  destruct (Ascii.eqb (char_at str e) NUL).
  - intros H. inversion H; subst. cbn [parsed_shape]. apply to_int_range.
  - destruct (try_parse_double str) as [is_double doubleValue].
    destruct is_double; [|discriminate].
    intros H. inversion H; subst. reflexivity.
Qed.

Lemma string_loop_shape s : forall str i v next,
  string_loop s str i = Some (v, next) -> parsed_shape v = true.
Proof.
  assert (H : forall m s str i v next,
             length s <= m ->
             string_loop s str i = Some (v, next) -> parsed_shape v = true).
  { clear s. induction m as [|m IH]; intros s str i v next Hlen.
    - destruct s; [discriminate|simpl in Hlen; lia].
    - destruct s as [|c t]; [discriminate|]. simpl in Hlen. cbn [string_loop].
      destruct (Ascii.eqb c "\").
      + destruct t as [|d t']; [discriminate|]. simpl in Hlen.
        apply IH. lia.
      + destruct (Ascii.eqb c dquote).
        * intros H. inversion H. reflexivity.
        * apply IH. lia. }
  intros str i v next. apply (H (length s)). lia.
Qed.

Lemma shape_all fuel :
  (forall json start v next,
      parse fuel json start = Some (v, next) -> parsed_shape v = true)
  /\ (forall json res i v next,
      forallb parsed_shape res = true ->
      array_loop fuel json res i = Some (Return (v, next)) ->
      parsed_shape v = true)
  /\ (forall json res i v next,
      parsed_shape (JDict res) = true ->
      object_loop fuel json res i = Some (Return (v, next)) ->
      parsed_shape v = true).
Proof.
  induction fuel as [|fuel (IHp & IHa & IHo)].
  - repeat split; intros; discriminate.
  - split; [|split].
    + intros json start v next H.
      apply parse_S_inv in H. cbv zeta in H.
      destruct H as [[_ H]|[Hlt [H|[H|[H|[H|H]]]]]].
      * inversion H; reflexivity.
      * apply number_branch_shape in H. exact H.
      * unfold string_branch in H. apply string_loop_shape in H. exact H.
      * apply IHa in H; [exact H|reflexivity].
      * apply IHo in H; [exact H|reflexivity].
      * inversion H; reflexivity.
    + intros json res i v next Hres. rewrite array_loop_S.
      destruct (i <? length json); [|discriminate].
      destruct (Ascii.eqb _ "]").
      { intros H. inversion H; subst. exact Hres. }
      destruct (parse fuel json i) as [[obj n]|] eqn:Hp; [|discriminate].
      apply IHp in Hp. apply IHa.
      rewrite forallb_app, Hres. cbn [forallb]. rewrite Hp. reflexivity.
    + intros json res i v next Hres. rewrite object_loop_S.
      destruct (i <? length json); [|discriminate].
      destruct (Ascii.eqb _ "}").
      { intros H. inversion H; subst. exact Hres. }
      destruct (parse fuel json i) as [[keyobj ke]|] eqn:Hk; [|discriminate].
      match goal with
      | |- match parse fuel json ?j with _ => _ end = _ -> _ =>
          destruct (parse fuel json j) as [[valobj ve]|] eqn:Hv; [|discriminate]
      end.
      apply IHp in Hv. apply IHo.
      destruct (is_string keyobj); [|exact Hres].
      cbn [parsed_shape] in *. apply andb_prop in Hres.
      destruct Hres as [Hu Hd]. apply andb_true_intro. split.
      * apply NoDup_unique_keys, dict_set_keys, unique_keys_NoDup. exact Hu.
      * apply dict_set_shape; assumption.
Qed.

(** X4. Whatever the buffer, a tree returned by [parse] holds no Bool,
    every Int in it is within the range of [int], and no Dict in it has
    a key twice, at any depth. *)
Theorem parse_result_shape fuel json start v next :
  parse fuel json start = Some (v, next) -> parsed_shape v = true.
Proof. apply shape_all. Qed.

Lemma parse_result_shape_witness :
  parse 10 (json_text "{'a':[5],1:2,'a':[99999999999999999999]}") 0
  = Some (JDict [(chars "a", JList [JInt (-1)])], 40)
  /\ parsed_shape (JDict [(chars "a", JList [JInt (-1)])]) = true.
Proof.
  split; [reflexivity|].
  apply (parse_result_shape 10
           (json_text "{'a':[5],1:2,'a':[99999999999999999999]}") 0 _ 40).
  reflexivity.
Defined.

(** ** Strings and escapes *)

Lemma string_loop_pieces ps : forall str i rest,
  forallb proper ps = true ->
  string_loop (flat_map written ps ++ dquote :: rest) str i
  = Some (JString (str ++ map decoded ps),
          i + length (flat_map written ps) + 1).
Proof.
  induction ps as [|p ps IH]; intros str i rest Hps.
  - simpl. rewrite app_nil_r. do 2 f_equal. lia.
  - cbn [forallb] in Hps. apply andb_prop in Hps. destruct Hps as [Hp Hps].
    destruct p as [c|d]; cbn [flat_map written app map decoded].
    + cbn [proper] in Hp. apply negb_true_iff in Hp.
      apply orb_false_elim in Hp. destruct Hp as [Hq Hb].
      cbn [string_loop]. rewrite Hb, Hq, IH by assumption.
      rewrite <- app_assoc. cbn [app length]. do 2 f_equal. lia.
    + cbn [string_loop]. change (Ascii.eqb "\" "\") with true. cbv iota.
      rewrite IH by assumption.
      rewrite <- app_assoc. cbn [app length]. do 2 f_equal. lia.
Qed.

(** X8. A string literal is decoded piece by piece: a character that is
    neither a quote nor a backslash stands for itself, a backslash and a
    character stand for what [unescaped_char] makes of the character (so
    an escaped quote or backslash stands for itself), and the first quote
    that is not escaped ends the string, with the cursor after it. *)
Theorem string_literal_decodes fuel pre ws ps rest :
  all_space ws = true ->
  forallb proper ps = true ->
  parse (S fuel) (pre ++ ws ++ dquote :: flat_map written ps ++ dquote :: rest)
    (length pre)
  = Some (JString (map decoded ps),
          length pre + length ws + length (flat_map written ps) + 2).
Proof.
  intros Hws Hps.
  set (body := flat_map written ps).
  set (json := pre ++ ws ++ dquote :: body ++ dquote :: rest).
  assert (Hsk : skipn (length pre) json = ws ++ dquote :: body ++ dquote :: rest).
  { apply skipn_app_length. }
  assert (Hskq : skipn (length pre + length ws) json
                 = dquote :: body ++ dquote :: rest).
  { apply (skipn_step json _ ws). exact Hsk. }
  destruct (skipn_head json _ _ _ Hskq) as [Hc Hlt].
  rewrite (parse_leading_space (S fuel) json (length pre) ws dquote _
             Hws eq_refl Hsk).
  rewrite parse_S. cbv zeta. unfold skip_space. rewrite Hskq.
  rewrite span_space_head by reflexivity. rewrite Nat.add_0_r.
  apply Nat.leb_gt in Hlt. rewrite Hlt, Hc.
  change (isdigit dquote || Ascii.eqb dquote "-" || Ascii.eqb dquote "+") with false.
  change (Ascii.eqb dquote dquote) with true. cbv iota.
  unfold string_branch.
  pose proof (skipn_step json _ [dquote] (body ++ dquote :: rest) Hskq) as Hbody.
  cbn [length] in Hbody. rewrite Hbody.
  unfold body. rewrite string_loop_pieces by assumption.
  cbn [app]. do 2 f_equal. lia.
Qed.

Lemma string_literal_decodes_witness :
  parse 1 (json_text "[ 'a\nb\'c\\']") 1
  = Some (JString ["a"; "010"; "b"; dquote; "c"; "\"]%char, 13).
Proof.
  exact (string_literal_decodes 0 (chars "[") (chars " ")
           [Plain "a"; Escape "n"; Plain "b"; Escape dquote; Plain "c"; Escape "\"]
           (chars "]") eq_refl eq_refl).
Defined.

(** ** Integers written and read *)

(** X9. [try_parse_int] reads back every [int] from the decimal text
    that the stream writes for it: the whole text is consumed and the
    value is the one that was written. *)
Theorem try_parse_int_reads_printed_int i :
  (INT_MIN <= i <= INT_MAX)%Z ->
  try_parse_int (print_int i) = (true, i).
Proof.
  intros Hi.
  pose proof (try_parse_int_literal _ (print_int_literal i)) as Hflag.
  pose proof (strtol_print_int i Hi) as Hval.
  rewrite print_int_no_mark in Hflag.
  unfold try_parse_int in *. destruct (strtol (print_int i)) as [v e].
  cbn [fst negb] in *. rewrite Hflag, Hval. reflexivity.
Qed.

Lemma try_parse_int_reads_printed_int_witness :
  (INT_MIN <= -2147483648 <= INT_MAX)%Z
  /\ try_parse_int (chars "-2147483648") = (true, (-2147483648)%Z).
Proof.
  split; [unfold INT_MIN, INT_MAX; lia|].
  apply (try_parse_int_reads_printed_int (-2147483648)).
  unfold INT_MIN, INT_MAX; lia.
Defined.

(** ** When the number branch returns *)

Lemma no_digit_span s : no_digit s = true -> span_digits s = 0.
Proof.
  destruct s as [|c t]; [reflexivity|]. cbn [no_digit forallb span_digits].
  intros H. apply andb_prop in H. destruct H as [H _].
  apply negb_true_iff in H. rewrite H. reflexivity.
Qed.

Lemma no_digit_skipn k : forall s, no_digit s = true -> no_digit (skipn k s) = true.
Proof.
  induction k as [|k IH]; intros s H; [exact H|].
  destruct s as [|c t]; [reflexivity|]. cbn [skipn]. apply IH.
  cbn [no_digit forallb] in H. apply andb_prop in H. tauto.
Qed.

Lemma num_re_match_digit c t : isdigit c = true -> num_re_match (c :: t) <> None.
Proof.
  intros Hc. unfold num_re_match. cbn [sign_len].
  rewrite (isdigit_not_sign c Hc). cbn [skipn span_digits]. rewrite Hc.
  cbn [Nat.eqb]. discriminate.
Qed.

Lemma regex_search_none s : regex_search s = None <-> no_digit s = true.
Proof.
  induction s as [|c s IH].
  - split; reflexivity.
  - cbn [regex_search]. split.
    + destruct (num_re_match (c :: s)) as [m|] eqn:Hm; [discriminate|].
      intros H. apply IH in H. cbn [no_digit forallb]. fold (no_digit s).
      rewrite H, andb_true_r. apply negb_true_iff.
      destruct (isdigit c) eqn:Hc; [|reflexivity].
      apply (num_re_match_digit c s) in Hc. congruence.
    + intros H.
      assert (Hm : num_re_match (c :: s) = None).
      { unfold num_re_match.
        rewrite (no_digit_span _ (no_digit_skipn _ _ H)). reflexivity. }
      rewrite Hm. apply IH.
      cbn [no_digit forallb] in H. apply andb_prop in H. tauto.
Qed.

(** Once the pattern has matched, one of the two conversions accepts the
    match. *)
Lemma number_branch_of_match json start str :
  regex_search (skipn start json) = Some str ->
  number_branch json start
  = Some (if has_point_or_exponent str
          then JDouble str
          else JInt (to_int (fst (strtol str))),
          start + length str).
Proof.
  intros Hre. unfold number_branch. rewrite Hre.
  apply regex_search_literal in Hre. destruct Hre as [Hlit _].
  pose proof (try_parse_int_literal str Hlit) as Hint.
  unfold try_parse_int in *. destruct (strtol str) as [v e]. cbn [fst] in *.
  rewrite Hint.
  destruct (has_point_or_exponent str); cbn [negb]; [|reflexivity].
  rewrite (try_parse_double_literal str Hlit). reflexivity.
Qed.

(** X10. The number branch leaves without a value exactly when no digit
    stands anywhere from the cursor to the end of the buffer: as soon as
    the pattern finds a match, [try_parse_int] or [try_parse_double]
    accepts it, so the case where both refuse never arises. *)
Theorem number_branch_fails_iff_no_digit json start :
  number_branch json start = None <-> no_digit (skipn start json) = true.
Proof.
  rewrite <- regex_search_none. split.
  - intros H. destruct (regex_search (skipn start json)) as [str|] eqn:Hre;
      [|reflexivity].
    rewrite (number_branch_of_match json start str Hre) in H. discriminate.
  - intros H. unfold number_branch. rewrite H. reflexivity.
Qed.

(** X11. The pattern is searched for, not matched at the cursor. When the
    cursor is on a sign that no digit follows at once, the number branch
    takes the first literal further on in the buffer, whatever stands in
    between, but advances the cursor from the sign by the length of that
    literal only. *)
Theorem sign_takes_a_later_literal fuel pre c junk lit s :
  is_sign c = true ->
  junk <> [] ->
  forallb (fun x => negb (isdigit x || is_sign x)) junk = true ->
  longest_literal lit s ->
  parse (S fuel) (pre ++ c :: junk ++ s) (length pre)
  = Some (if has_point_or_exponent lit
          then JDouble lit
          else JInt (to_int (fst (strtol lit))),
          length pre + length lit).
Proof.
  intros Hc Hne Hjunk Hlong.
  pose proof (num_re_match_longest lit s Hlong) as Hm.
  destruct Hlong as (Hlit & [rest ->] & _).
  assert (Hs : regex_search (lit ++ rest) = Some lit).
  { destruct (lit ++ rest) eqn:Hs; cbn [regex_search]; rewrite Hm;
      rewrite <- Hs; rewrite firstn_app, Nat.sub_diag, firstn_all;
      simpl; rewrite app_nil_r; reflexivity. }
  assert (Hj : regex_search (junk ++ lit ++ rest) = Some lit).
  { clear Hne. induction junk as [|x junk IH]; [exact Hs|].
    cbn [forallb] in Hjunk. apply andb_prop in Hjunk.
    destruct Hjunk as [Hx Hjunk]. apply negb_true_iff in Hx.
    apply orb_false_elim in Hx. destruct Hx as [Hxd Hxs].
    cbn [app regex_search]. unfold num_re_match at 1.
    cbn [sign_len]. rewrite Hxs. cbn [skipn span_digits]. rewrite Hxd.
    cbn [Nat.eqb]. apply IH. exact Hjunk. }
  assert (Hre : regex_search (c :: junk ++ lit ++ rest) = Some lit).
  { cbn [regex_search]. unfold num_re_match at 1.
    cbn [sign_len]. rewrite Hc. cbn [skipn].
    destruct junk as [|x junk]; [congruence|].
    cbn [forallb] in Hjunk. apply andb_prop in Hjunk.
    destruct Hjunk as [Hx _]. apply negb_true_iff in Hx.
    apply orb_false_elim in Hx. destruct Hx as [Hxd _].
    cbn [app span_digits]. rewrite Hxd. cbn [Nat.eqb]. exact Hj. }
  set (json := pre ++ c :: junk ++ lit ++ rest).
  assert (Hsk : skipn (length pre) json = c :: junk ++ lit ++ rest)
    by apply skipn_app_length.
  destruct (skipn_head json _ _ _ Hsk) as [Hfirst Hlt].
  rewrite parse_S. cbv zeta. unfold skip_space. rewrite Hsk.
  rewrite span_space_head by (apply is_sign_not_space; exact Hc).
  rewrite Nat.add_0_r. apply Nat.leb_gt in Hlt. rewrite Hlt, Hfirst.
  assert (Hcond : isdigit c || Ascii.eqb c "-" || Ascii.eqb c "+" = true).
  { destruct (is_sign_cases c Hc) as [E|E]; rewrite E; reflexivity. }
  rewrite Hcond.
  rewrite (number_branch_of_match json (length pre) lit); [reflexivity|].
  rewrite Hsk. exact Hre.
Qed.

Lemma sign_takes_a_later_literal_witness :
  parse 1 (chars "[-abc12]") 1 = Some (JInt 12, 3).
Proof.
  assert (H : longest_literal (chars "12") (chars "12]")).
  { apply (num_re_match_is_longest (chars "12]") 2). reflexivity. }
  exact (sign_takes_a_later_literal 0 (chars "[") "-" (chars "abc") (chars "12")
           (chars "12]") eq_refl ltac:(discriminate) eq_refl H).
Defined.

(** ** White space before a value *)

(** X13. White space before a value is not part of it: parsing from the
    start of a run of white space and parsing from its end give the same
    result, cursor included. *)
Theorem leading_space_is_skipped fuel pre ws s :
  all_space ws = true ->
  parse fuel (pre ++ ws ++ s) (length pre)
  = parse fuel (pre ++ ws ++ s) (length pre + length ws).
Proof.
  intros Hws. apply parse_from_skip.
  rewrite skip_space_app by assumption.
  unfold skip_space.
  rewrite (skipn_step (pre ++ ws ++ s) (length pre) ws s (skipn_app_length _ _)).
  reflexivity.
Qed.

Lemma leading_space_is_skipped_witness :
  parse 1 (chars "[ 	 7]") 1 = parse 1 (chars "[ 	 7]") 4.
Proof.
  exact (leading_space_is_skipped 1 (chars "[") (chars " 	 ") (chars "7]") eq_refl).
Defined.

(** ** Printing is one to one *)

(** X12. On plain trees [print] is one to one: two such trees with the
    same text are the same tree. *)
Theorem print_injective_on_plain_trees put_double v1 v2 :
  plain_tree v1 = true -> plain_tree v2 = true ->
  print put_double v1 = print put_double v2 ->
  v1 = v2.
Proof.
  intros H1 H2 Heq.
  destruct (plain_tree_reparses put_double v1 H1 (print put_double v1) 0 [] []
              eq_refl eq_refl) as [f1 Hf1].
  { cbn [app]. rewrite app_nil_r. reflexivity. }
  destruct (plain_tree_reparses put_double v2 H2 (print put_double v1) 0 [] []
              eq_refl eq_refl) as [f2 Hf2].
  { cbn [app]. rewrite app_nil_r. exact Heq. }
  apply (parse_fuel_mono f1 (Nat.max f1 f2)) in Hf1; [|lia].
  apply (parse_fuel_mono f2 (Nat.max f1 f2)) in Hf2; [|lia].
  rewrite Hf1 in Hf2. inversion Hf2. reflexivity.
Qed.

Lemma print_injective_on_plain_trees_witness :
  plain_tree (JList [JInt 1; JString (chars "1")]) = true
  /\ JList [JInt 1; JString (chars "1")]
     = JList [JInt (0 + 1); JString (chars "1")].
Proof.
  split; [reflexivity|].
  apply (print_injective_on_plain_trees (fun d => d)
           (JList [JInt 1; JString (chars "1")])
           (JList [JInt (0 + 1); JString (chars "1")])); reflexivity.
Defined.

(** ** Layouts that the loops accept *)

Lemma skipn_nil_char_at (json : text) n :
  skipn n json = [] -> char_at json n = NUL.
Proof.
  intros H. unfold char_at. apply nth_overflow.
  apply (f_equal (@length ascii)) in H. rewrite length_skipn in H.
  simpl in H. lia.
Qed.

Lemma ends_value_closes following :
  ends_value following = true -> closes following = true.
Proof.
  destruct following as [|c t]; [reflexivity|]. cbn [ends_value closes].
  intros H. apply negb_true_iff in H. apply orb_false_elim in H.
  destruct H as [H _]. rewrite H. reflexivity.
Qed.

Lemma ends_value_no_comma (json : text) n following :
  ends_value following = true -> skipn n json = following ->
  Ascii.eqb (char_at json n) "," = false.
Proof.
  intros He Hsk. destruct following as [|c t].
  - rewrite (skipn_nil_char_at json n Hsk). reflexivity.
  - destruct (skipn_head json n c t Hsk) as [-> _].
    cbn [ends_value] in He. apply negb_true_iff in He.
    apply orb_false_elim in He. tauto.
Qed.

(** The parts of [parse] on an opening bracket and on an opening brace. *)
Lemma parse_open_bracket fuel json i t :
  skipn i json = "[" :: t ->
  parse (S fuel) json i
  = match array_loop fuel json [] (i + 1) with
    | None => None
    | Some (Return r) => Some r
    | Some Exit => Some (JNull, i)
    end.
Proof.
  intros Hsk. destruct (skipn_head json i _ _ Hsk) as [Hc Hlt].
  rewrite parse_S. cbv zeta. unfold skip_space. rewrite Hsk.
  rewrite span_space_head by reflexivity. rewrite Nat.add_0_r.
  apply Nat.leb_gt in Hlt. rewrite Hlt, Hc.
  change (isdigit "[" || Ascii.eqb "[" "-" || Ascii.eqb "[" "+") with false.
  change (Ascii.eqb "[" dquote) with false.
  change (Ascii.eqb "[" "[") with true.
  change (Ascii.eqb "[" "{") with false. cbv iota.
  destruct (array_loop fuel json [] (i + 1)) as [[r|]|]; reflexivity.
Qed.

Lemma parse_open_brace fuel json i t :
  skipn i json = "{" :: t ->
  parse (S fuel) json i
  = match object_loop fuel json [] (i + 1) with
    | None => None
    | Some (Return r) => Some r
    | Some Exit => Some (JNull, i)
    end.
Proof.
  intros Hsk. destruct (skipn_head json i _ _ Hsk) as [Hc Hlt].
  rewrite parse_S. cbv zeta. unfold skip_space. rewrite Hsk.
  rewrite span_space_head by reflexivity. rewrite Nat.add_0_r.
  apply Nat.leb_gt in Hlt. rewrite Hlt, Hc.
  change (isdigit "{" || Ascii.eqb "{" "-" || Ascii.eqb "{" "+") with false.
  change (Ascii.eqb "{" dquote) with false.
  change (Ascii.eqb "{" "[") with false.
  change (Ascii.eqb "{" "{") with true. cbv iota.
  destruct (object_loop fuel json [] (i + 1)) as [[r|]|]; reflexivity.
Qed.

Section LayoutProofs.

Variable put : double -> text.

(** One turn of the array loop over an item. *)
Lemma array_item_step json i it following :
  all_space (item_space it) = true ->
  plain_tree (item_value it) = true ->
  item_comma it || ends_value following = true ->
  skipn i json = item_text put it ++ following ->
  exists n0, forall fuel res,
    n0 <= fuel ->
    array_loop (S fuel) json res i
    = array_loop fuel json (res ++ [item_value it])
        (i + length (item_text put it)).
Proof.
  destruct it as [ws v comma]. unfold item_text. cbn [item_space item_value item_comma].
  intros Hws Hv Hsep Hsk.
  assert (Hsk0 : skipn i json
                 = ws ++ print put v ++ separator comma "," ++ following).
  { rewrite Hsk, <- !app_assoc. reflexivity. }
  assert (Hcl : closes (separator comma "," ++ following) = true).
  { destruct comma; [reflexivity|]. apply ends_value_closes. exact Hsep. }
  destruct (plain_tree_reparses put v Hv json i ws _ Hws Hcl Hsk0) as [f1 Hf1].
  destruct (print_head put v Hv) as (c & t & Hhead & Hc).
  assert (Hsk1 : skipn i json = ws ++ c :: t ++ separator comma "," ++ following).
  { rewrite Hsk0, Hhead. reflexivity. }
  destruct (value_ahead json i ws c _ Hws Hc Hsk1) as (Hlt & Hb & _).
  set (n1 := i + length ws + length (print put v)) in *.
  assert (Hn1 : skipn n1 json = separator comma "," ++ following).
  { unfold n1. rewrite <- Nat.add_assoc, <- length_app.
    apply skipn_step. rewrite Hsk0, <- app_assoc. reflexivity. }
  exists f1. intros fuel res Hfuel.
  rewrite array_loop_S, Hlt, Hb.
  rewrite (parse_fuel_mono f1 fuel _ _ _ Hfuel Hf1).
  rewrite !length_app. destruct comma; cbn [separator app length] in *.
  - destruct (skipn_head json n1 _ _ Hn1) as [-> _].
    change (Ascii.eqb "," ",") with true. cbv iota.
    f_equal. unfold n1. lia.
  - rewrite (ends_value_no_comma json n1 following Hsep Hn1).
    f_equal. unfold n1. lia.
Qed.

Lemma array_items_steps items : forall tail json i,
  well_laid_items put items tail = true ->
  skipn i json = items_text put items ++ tail ->
  exists n0, forall fuel res,
    n0 <= fuel ->
    array_loop (length items + fuel) json res i
    = array_loop fuel json (res ++ map item_value items)
        (i + length (items_text put items)).
Proof.
  induction items as [|it items IH]; intros tail json i Hok Hsk.
  - exists 0. intros fuel res _. cbn [length Nat.add map items_text flat_map].
    rewrite app_nil_r, Nat.add_0_r. reflexivity.
  - cbn [well_laid_items] in Hok.
    apply andb_prop in Hok. destruct Hok as [Hok Hrest].
    apply andb_prop in Hok. destruct Hok as [Hok Hsep].
    apply andb_prop in Hok. destruct Hok as [Hws Hv].
    unfold items_text in *. cbn [flat_map] in *. fold (items_text put items) in *.
    rewrite <- app_assoc in Hsk.
    destruct (array_item_step json i it _ Hws Hv Hsep Hsk) as [f1 Hstep].
    destruct (IH tail json (i + length (item_text put it)) Hrest
                (skipn_step json i _ _ Hsk)) as [f2 Hsteps].
    exists (Nat.max f1 f2). intros fuel res Hfuel.
    cbn [length Nat.add]. rewrite Hstep by lia. rewrite Hsteps by lia.
    rewrite <- app_assoc. cbn [app map]. rewrite length_app.
    f_equal. lia.
Qed.

(** What a loop does after a number of turns, it does outright. *)
Lemma array_loop_after json i i' k n0 (vals : list JSONObject) :
  (forall fuel res,
      n0 <= fuel ->
      array_loop (k + fuel) json res i = array_loop fuel json (res ++ vals) i') ->
  (forall fuel res, array_loop fuel json res i' = None) ->
  forall fuel res, array_loop fuel json res i = None.
Proof.
  intros Hsteps Hstuck fuel res.
  destruct (array_loop fuel json res i) as [r|] eqn:E; [|reflexivity].
  apply (array_loop_fuel_mono fuel (k + (n0 + fuel))) in E; [|lia].
  rewrite Hsteps, Hstuck in E by lia. discriminate.
Qed.

(** X14. The array loop asks for little: an array whose values stand
    each after any white space, with or without a comma right after them
    (the last one included), parses to the list of the values, provided
    a value without a comma is ended by what follows it. *)
Theorem lenient_array_layout pre items rest :
  well_laid_items put items ("]" :: rest) = true ->
  exists fuel,
    parse fuel (pre ++ "[" :: items_text put items ++ "]" :: rest) (length pre)
    = Some (JList (map item_value items),
            length pre + length (items_text put items) + 2).
Proof.
  intros Hok.
  set (json := pre ++ "[" :: items_text put items ++ "]" :: rest).
  assert (Hsk : skipn (length pre) json
                = "[" :: items_text put items ++ "]" :: rest)
    by apply skipn_app_length.
  assert (Hsk1 : skipn (length pre + 1) json = items_text put items ++ "]" :: rest).
  { apply (skipn_step json _ ["["%char]). exact Hsk. }
  destruct (array_items_steps items _ json _ Hok Hsk1) as [n0 Hsteps].
  pose proof (skipn_step json _ _ _ Hsk1) as Hend.
  destruct (skipn_head json _ _ _ Hend) as [Hc Hlt].
  exists (S (length items + S n0)).
  rewrite (parse_open_bracket _ json (length pre) _ Hsk).
  rewrite Hsteps by lia. rewrite array_loop_S.
  apply Nat.ltb_lt in Hlt. rewrite Hlt, Hc.
  change (Ascii.eqb "]" "]") with true. cbv iota.
  cbn [app]. do 2 f_equal. lia.
Qed.

End LayoutProofs.

Lemma lenient_array_layout_witness :
  exists fuel,
    parse fuel (json_text "[1 'a'[2],  -3,]") 0
    = Some (JList [JInt 1; JString (chars "a"); JList [JInt 2]; JInt (-3)], 16).
Proof.
  exact (lenient_array_layout (fun d => d) []
           [ {| item_space := []; item_value := JInt 1; item_comma := false |};
             {| item_space := chars " "; item_value := JString (chars "a");
                item_comma := false |};
             {| item_space := []; item_value := JList [JInt 2];
                item_comma := true |};
             {| item_space := chars "  "; item_value := JInt (-3);
                item_comma := true |} ]
           [] eq_refl).
Defined.

(** ** Elements that are not values *)

Lemma ahead_char (json : text) i ws c t x :
  all_space ws = true ->
  skipn i json = ws ++ c :: t ->
  isspace x = false -> Ascii.eqb c x = false ->
  (i <? length json) = true /\ Ascii.eqb (char_at json i) x = false.
Proof.
  intros Hws Hsk Hx Hc. destruct ws as [|w ws].
  - destruct (skipn_head json i _ _ Hsk) as [-> Hlt].
    split; [apply Nat.ltb_lt; assumption|exact Hc].
  - destruct (skipn_head json i _ _ Hsk) as [-> Hlt].
    simpl in Hws. apply andb_prop in Hws. destruct Hws as [Hw _].
    split; [apply Nat.ltb_lt; assumption|apply isspace_not; assumption].
Qed.

(** At a character that starts no value, past any white space, [parse]
    gives Null on that character. *)
Lemma parse_at_unrecognized fuel (json : text) i ws c t :
  all_space ws = true -> isspace c = false -> starts_value c = false ->
  skipn i json = ws ++ c :: t ->
  parse (S fuel) json i = Some (JNull, i + length ws).
Proof.
  intros Hws Hsp Hc Hsk.
  assert (Hskip : skip_space json i = i + length ws).
  { unfold skip_space. rewrite Hsk, span_space_app by assumption.
    rewrite span_space_head by assumption. lia. }
  destruct (skipn_head json _ _ _ (skipn_step json i ws _ Hsk)) as [Hch Hlt].
  rewrite <- Hskip in *. rewrite parse_unrecognized; [reflexivity|exact Hlt|].
  rewrite Hch. exact Hc.
Qed.

Lemma array_loop_stuck_after_space (json : text) i ws c t :
  all_space ws = true -> isspace c = false -> starts_value c = false ->
  Ascii.eqb c "]" = false -> Ascii.eqb c "," = false ->
  skipn i json = ws ++ c :: t ->
  forall fuel res, array_loop fuel json res i = None.
Proof.
  intros Hws Hsp Hc Hb Hcm Hsk.
  pose proof (skipn_step json i ws _ Hsk) as Hskq.
  destruct (skipn_head json _ _ _ Hskq) as [Hch Hlt].
  assert (Hstuck : forall fuel res, array_loop fuel json res (i + length ws) = None).
  { apply array_loop_stuck.
    - apply Nat.ltb_lt. exact Hlt.
    - rewrite Hch. exact Hb.
    - rewrite Hch. exact Hcm.
    - intros fuel.
      rewrite (parse_at_unrecognized fuel json _ [] c t eq_refl Hsp Hc Hskq).
      cbn [length]. rewrite Nat.add_0_r. reflexivity. }
  destruct (ahead_char json i ws c t "]" Hws Hsk eq_refl Hb) as [Hlti Hbi].
  intros [|fuel] res; [reflexivity|].
  rewrite array_loop_S, Hlti, Hbi.
  destruct fuel as [|fuel]; [reflexivity|].
  rewrite (parse_at_unrecognized fuel json i ws c t Hws Hsp Hc Hsk).
  rewrite Hch, Hcm. apply Hstuck.
Qed.

Lemma object_loop_stuck json i :
  (i <? length json) = true ->
  Ascii.eqb (char_at json i) "}" = false ->
  Ascii.eqb (char_at json i) ":" = false ->
  Ascii.eqb (char_at json i) "," = false ->
  (forall fuel, parse (S fuel) json i = Some (JNull, i)) ->
  forall fuel res, object_loop fuel json res i = None.
Proof.
  intros Hlt Hb Hcl Hcm Hp fuel.
  induction fuel as [|fuel IH]; intros res; [reflexivity|].
  rewrite object_loop_S, Hlt, Hb.
  destruct fuel as [|fuel]; [reflexivity|].
  rewrite Hp, Hcl, Hp, Hcm. apply IH.
Qed.

Lemma object_loop_stuck_after_space (json : text) i ws c t :
  all_space ws = true -> isspace c = false -> starts_value c = false ->
  Ascii.eqb c "}" = false -> Ascii.eqb c ":" = false ->
  Ascii.eqb c "," = false ->
  skipn i json = ws ++ c :: t ->
  forall fuel res, object_loop fuel json res i = None.
Proof.
  intros Hws Hsp Hc Hb Hcl Hcm Hsk.
  pose proof (skipn_step json i ws _ Hsk) as Hskq.
  destruct (skipn_head json _ _ _ Hskq) as [Hch Hlt].
  assert (Hq : forall fuel,
             parse (S fuel) json (i + length ws) = Some (JNull, i + length ws)).
  { intros fuel.
    rewrite (parse_at_unrecognized fuel json _ [] c t eq_refl Hsp Hc Hskq).
    cbn [length]. rewrite Nat.add_0_r. reflexivity. }
  assert (Hstuck : forall fuel res, object_loop fuel json res (i + length ws) = None).
  { apply object_loop_stuck; try (rewrite Hch; assumption).
    - apply Nat.ltb_lt. exact Hlt.
    - exact Hq. }
  destruct (ahead_char json i ws c t "}" Hws Hsk eq_refl Hb) as [Hlti Hbi].
  intros [|fuel] res; [reflexivity|].
  rewrite object_loop_S, Hlti, Hbi.
  destruct fuel as [|fuel]; [reflexivity|].
  rewrite (parse_at_unrecognized fuel json i ws c t Hws Hsp Hc Hsk).
  rewrite Hch, Hcl, Hq, Hch, Hcm. apply Hstuck.
Qed.

Section NotAValue.

Variable put : double -> text.

(** X6. An array never comes back once the loop reaches, after any
    number of well laid out values, a character that starts no value and
    is neither ']' nor ',': a letter, say, as in [[1, true]]. No amount
    of fuel gives a result. *)
Theorem array_element_not_a_value pre items ws c rest :
  well_laid_items put items (ws ++ c :: rest) = true ->
  all_space ws = true -> isspace c = false -> starts_value c = false ->
  Ascii.eqb c "]" = false -> Ascii.eqb c "," = false ->
  diverges (pre ++ "[" :: items_text put items ++ ws ++ c :: rest) (length pre).
Proof.
  intros Hok Hws Hsp Hc Hb Hcm.
  set (json := pre ++ "[" :: items_text put items ++ ws ++ c :: rest).
  assert (Hsk : skipn (length pre) json
                = "[" :: items_text put items ++ ws ++ c :: rest)
    by apply skipn_app_length.
  assert (Hsk1 : skipn (length pre + 1) json
                 = items_text put items ++ ws ++ c :: rest).
  { apply (skipn_step json _ ["["%char]). exact Hsk. }
  destruct (array_items_steps put items _ json _ Hok Hsk1) as [n0 Hsteps].
  pose proof (array_loop_stuck_after_space json _ ws c rest Hws Hsp Hc Hb Hcm
                (skipn_step json _ _ _ Hsk1)) as Hstuck.
  pose proof (array_loop_after json _ _ _ n0 _ Hsteps Hstuck) as Hnone.
  intros [|fuel]; [reflexivity|].
  rewrite (parse_open_bracket fuel json (length pre) _ Hsk), Hnone.
  reflexivity.
Qed.

End NotAValue.

Lemma array_element_not_a_value_witness :
  diverges (chars "[1, true]") 0.
Proof.
  exact (array_element_not_a_value (fun d => d) []
           [ {| item_space := []; item_value := JInt 1; item_comma := true |} ]
           (chars " ") "t" (chars "rue]")
           eq_refl eq_refl eq_refl eq_refl eq_refl eq_refl).
Defined.

(** ** Layouts of objects *)

Section ObjectLayout.

Variable put : double -> text.

(** One turn of the object loop over an entry. *)
Lemma object_entry_step json i e following :
  all_space (entry_key_space e) = true ->
  plain_text (entry_key e) = true ->
  all_space (entry_value_space e) = true ->
  plain_tree (entry_value e) = true ->
  entry_comma e || ends_value following = true ->
  skipn i json = entry_text put e ++ following ->
  exists n0, forall fuel res,
    n0 <= fuel ->
    object_loop (S fuel) json res i
    = object_loop fuel json (dict_set (entry_key e) (entry_value e) res)
        (i + length (entry_text put e)).
Proof.
  destruct e as [ks k colon vs v comma]. unfold entry_text.
  cbn [entry_key_space entry_key entry_colon entry_value_space
         entry_value entry_comma].
  intros Hks Hk Hvs Hv Hsep Hsk.
  set (after_value := separator comma "," ++ following).
  set (after_key := separator colon ":" ++ vs ++ print put v ++ after_value).
  assert (Hsk0 : skipn i json = ks ++ dquote :: k ++ dquote :: after_key).
  { rewrite Hsk. unfold after_key, after_value.
    rewrite <- !app_assoc. cbn [app]. rewrite <- !app_assoc. cbn [app].
    rewrite <- !app_assoc. reflexivity. }
  destruct (value_ahead json i ks dquote _ Hks eq_refl Hsk0) as (Hlt & _ & Hb).
  assert (Hskk : skipn (i + length ks) json = dquote :: k ++ dquote :: after_key).
  { apply (skipn_step json i ks). exact Hsk0. }
  set (ke := i + length ks + length k + 2).
  assert (Hske : skipn ke json = after_key).
  { unfold ke. rewrite <- Nat.add_assoc.
    replace (length k + 2) with (length (dquote :: k ++ [dquote]))
      by (cbn [length]; rewrite length_app; cbn [length]; lia).
    apply skipn_step. rewrite Hskk. cbn [app]. rewrite <- app_assoc. reflexivity. }
  set (i2 := if colon then ke + 1 else ke).
  assert (Hski2 : skipn i2 json = vs ++ print put v ++ after_value
                  /\ (if Ascii.eqb (char_at json ke) ":" then ke + 1 else ke) = i2).
  { unfold i2, after_key in *. destruct comma, colon; cbn [separator app] in *.
    all: try (destruct (skipn_head json ke _ _ Hske) as [-> _];
              change (Ascii.eqb ":" ":") with true; cbv iota;
              split; [apply (skipn_step json ke [":"%char]); exact Hske
                     |reflexivity]).
    all: destruct (print_head put v Hv) as (c & t & Hhead & Hc);
      rewrite Hhead in Hske; cbn [app] in Hske;
      destruct (ahead_char json ke vs c _ ":" Hvs Hske eq_refl
                  (starts_value_not c ":" eq_refl Hc)) as [_ Hnc];
      rewrite Hnc; rewrite Hhead; split; [exact Hske|reflexivity]. }
  destruct Hski2 as [Hski2 Hi2].
  assert (Hcl : closes after_value = true).
  { unfold after_value. destruct comma; [reflexivity|].
    apply ends_value_closes. exact Hsep. }
  destruct (plain_tree_reparses put v Hv json i2 vs _ Hvs Hcl Hski2) as [f1 Hf1].
  set (ve := i2 + length vs + length (print put v)) in *.
  assert (Hve : skipn ve json = after_value).
  { unfold ve. rewrite <- Nat.add_assoc, <- length_app.
    apply skipn_step. rewrite Hski2, <- app_assoc. reflexivity. }
  exists (Nat.max 1 f1). intros fuel res Hfuel.
  rewrite object_loop_S, Hlt, Hb.
  destruct fuel as [|fuel]; [lia|].
  rewrite (parse_leading_space (S fuel) json i ks dquote _ Hks eq_refl Hsk0).
  rewrite (parse_string_at fuel json (i + length ks) k _ Hk Hskk).
  fold ke. rewrite Hi2.
  rewrite (parse_fuel_mono f1 (S fuel) _ _ _ ltac:(lia) Hf1).
  change (is_string (JString k)) with true. cbv iota. cbn [strVal_of].
  assert (Hlen : ve + length (separator comma ",")
                 = i + length (ks ++ dquote :: k ++ dquote :: separator colon ":"
                                  ++ vs ++ print put v ++ separator comma ",")).
  { unfold ve, i2, ke. rewrite !length_app. cbn [length].
    rewrite !length_app. cbn [length]. rewrite !length_app.
    destruct colon; cbn [separator length]; lia. }
  rewrite <- Hlen. unfold after_value in Hve.
  destruct comma; cbn [separator app length] in *.
  - destruct (skipn_head json ve _ _ Hve) as [-> _].
    change (Ascii.eqb "," ",") with true. cbv iota. reflexivity.
  - rewrite (ends_value_no_comma json ve following Hsep Hve).
    rewrite Nat.add_0_r. reflexivity.
Qed.

Lemma object_entries_steps entries : forall tail json i,
  well_laid_entries put entries tail = true ->
  skipn i json = entries_text put entries ++ tail ->
  exists n0, forall fuel res,
    n0 <= fuel ->
    object_loop (length entries + fuel) json res i
    = object_loop fuel json (assign_all (map entry_pair entries) res)
        (i + length (entries_text put entries)).
Proof.
  induction entries as [|e entries IH]; intros tail json i Hok Hsk.
  - exists 0. intros fuel res _.
    cbn [length Nat.add map entries_text flat_map assign_all fold_left].
    rewrite Nat.add_0_r. reflexivity.
  - cbn [well_laid_entries] in Hok.
    apply andb_prop in Hok. destruct Hok as [Hok Hrest].
    apply andb_prop in Hok. destruct Hok as [Hok Hsep].
    apply andb_prop in Hok. destruct Hok as [Hok Hv].
    apply andb_prop in Hok. destruct Hok as [Hok Hvs].
    apply andb_prop in Hok. destruct Hok as [Hks Hk].
    unfold entries_text in *. cbn [flat_map] in *.
    fold (entries_text put entries) in *.
    rewrite <- app_assoc in Hsk.
    destruct (object_entry_step json i e _ Hks Hk Hvs Hv Hsep Hsk) as [f1 Hstep].
    destruct (IH tail json (i + length (entry_text put e)) Hrest
                (skipn_step json i _ _ Hsk)) as [f2 Hsteps].
    exists (Nat.max f1 f2). intros fuel res Hfuel.
    cbn [length Nat.add]. rewrite Hstep by lia. rewrite Hsteps by lia.
    cbn [map assign_all fold_left entry_pair fst snd]. rewrite length_app.
    f_equal. lia.
Qed.

Lemma object_loop_after json i i' k n0 (f : dict -> dict) :
  (forall fuel res,
      n0 <= fuel ->
      object_loop (k + fuel) json res i = object_loop fuel json (f res) i') ->
  (forall fuel res, object_loop fuel json res i' = None) ->
  forall fuel res, object_loop fuel json res i = None.
Proof.
  intros Hsteps Hstuck fuel res.
  destruct (object_loop fuel json res i) as [r|] eqn:E; [|reflexivity].
  apply (object_loop_fuel_mono fuel (k + (n0 + fuel))) in E; [|lia].
  rewrite Hsteps, Hstuck in E by lia. discriminate.
Qed.

(** X15. The object loop asks for little as well: the colon after a key
    and the comma after a value may each be left out, and white space
    may stand before every key and every value. Such an object parses to
    the dictionary built by assigning its pairs in order, provided a
    value without a comma is ended by what follows it. *)
Theorem lenient_object_layout pre entries rest :
  well_laid_entries put entries ("}" :: rest) = true ->
  exists fuel,
    parse fuel (pre ++ "{" :: entries_text put entries ++ "}" :: rest)
      (length pre)
    = Some (JDict (assign_all (map entry_pair entries) []),
            length pre + length (entries_text put entries) + 2).
Proof.
  intros Hok.
  set (json := pre ++ "{" :: entries_text put entries ++ "}" :: rest).
  assert (Hsk : skipn (length pre) json
                = "{" :: entries_text put entries ++ "}" :: rest)
    by apply skipn_app_length.
  assert (Hsk1 : skipn (length pre + 1) json
                 = entries_text put entries ++ "}" :: rest).
  { apply (skipn_step json _ ["{"%char]). exact Hsk. }
  destruct (object_entries_steps entries _ json _ Hok Hsk1) as [n0 Hsteps].
  pose proof (skipn_step json _ _ _ Hsk1) as Hend.
  destruct (skipn_head json _ _ _ Hend) as [Hc Hlt].
  exists (S (length entries + S n0)).
  rewrite (parse_open_brace _ json (length pre) _ Hsk).
  rewrite Hsteps by lia. rewrite object_loop_S.
  apply Nat.ltb_lt in Hlt. rewrite Hlt, Hc.
  change (Ascii.eqb "}" "}") with true. cbv iota.
  do 2 f_equal. lia.
Qed.

(** X7. An object never comes back once the loop reaches, after any
    number of well laid out entries, a character that starts no value
    and is none of '}', ':' and ',': a key without quotes, say. No
    amount of fuel gives a result. *)
Theorem object_key_not_a_value pre entries ws c rest :
  well_laid_entries put entries (ws ++ c :: rest) = true ->
  all_space ws = true -> isspace c = false -> starts_value c = false ->
  Ascii.eqb c "}" = false -> Ascii.eqb c ":" = false ->
  Ascii.eqb c "," = false ->
  diverges (pre ++ "{" :: entries_text put entries ++ ws ++ c :: rest)
    (length pre).
Proof.
  intros Hok Hws Hsp Hc Hb Hcl Hcm.
  set (json := pre ++ "{" :: entries_text put entries ++ ws ++ c :: rest).
  assert (Hsk : skipn (length pre) json
                = "{" :: entries_text put entries ++ ws ++ c :: rest)
    by apply skipn_app_length.
  assert (Hsk1 : skipn (length pre + 1) json
                 = entries_text put entries ++ ws ++ c :: rest).
  { apply (skipn_step json _ ["{"%char]). exact Hsk. }
  destruct (object_entries_steps entries _ json _ Hok Hsk1) as [n0 Hsteps].
  pose proof (object_loop_stuck_after_space json _ ws c rest
                Hws Hsp Hc Hb Hcl Hcm (skipn_step json _ _ _ Hsk1)) as Hstuck.
  pose proof (object_loop_after json _ _ _ n0 _ Hsteps Hstuck) as Hnone.
  intros [|fuel]; [reflexivity|].
  rewrite (parse_open_brace fuel json (length pre) _ Hsk), Hnone.
  reflexivity.
Qed.

End ObjectLayout.

Lemma lenient_object_layout_witness :
  exists fuel,
    parse fuel (json_text "{'a'1 'b':[], 'a' 'x',}") 0
    = Some (JDict [(chars "a", JString (chars "x")); (chars "b", JList [])], 23).
Proof.
  exact (lenient_object_layout (fun d => d) []
           [ {| entry_key_space := []; entry_key := chars "a";
                entry_colon := false; entry_value_space := [];
                entry_value := JInt 1; entry_comma := false |};
             {| entry_key_space := chars " "; entry_key := chars "b";
                entry_colon := true; entry_value_space := [];
                entry_value := JList []; entry_comma := true |};
             {| entry_key_space := chars " "; entry_key := chars "a";
                entry_colon := false; entry_value_space := chars " ";
                entry_value := JString (chars "x"); entry_comma := true |} ]
           [] eq_refl).
Defined.

Lemma object_key_not_a_value_witness :
  diverges (json_text "{'a':1, b:2}") 0.
Proof.
  exact (object_key_not_a_value (fun d => d) []
           [ {| entry_key_space := []; entry_key := chars "a";
                entry_colon := true; entry_value_space := [];
                entry_value := JInt 1; entry_comma := true |} ]
           (chars " ") "b" (chars ":2}")
           eq_refl eq_refl eq_refl eq_refl eq_refl eq_refl eq_refl).
Defined.

(** ** Containers that are not closed *)

Lemma parse_exhausted fuel (json : text) i ws :
  all_space ws = true -> skipn i json = ws -> i <= length json ->
  parse (S fuel) json i = Some (JNull, length json).
Proof.
  intros Hws Hsk Hi. rewrite parse_S. cbv zeta. unfold skip_space.
  rewrite Hsk, span_space_all by assumption.
  assert (Hlen : i + length ws = length json).
  { rewrite <- Hsk, length_skipn. lia. }
  rewrite Hlen, Nat.leb_refl. reflexivity.
Qed.

Lemma char_at_end (json : text) : char_at json (length json) = NUL.
Proof. unfold char_at. apply nth_overflow. lia. Qed.

Lemma array_loop_at_end fuel (json : text) i ws res :
  all_space ws = true -> skipn i json = ws -> i <= length json ->
  array_loop (S (S fuel)) json res i = Some Exit.
Proof.
  intros Hws Hsk Hi. rewrite array_loop_S.
  destruct ws as [|w ws].
  - assert (Hge : (i <? length json) = false).
    { apply Nat.ltb_ge. apply (f_equal (@length ascii)) in Hsk.
      rewrite length_skipn in Hsk. simpl in Hsk. lia. }
    rewrite Hge. reflexivity.
  - destruct (skipn_head json i _ _ Hsk) as [Hc Hlt].
    pose proof Hws as Hw. simpl in Hw. apply andb_prop in Hw. destruct Hw as [Hw _].
    apply Nat.ltb_lt in Hlt. rewrite Hlt, Hc.
    rewrite (isspace_not w "]" eq_refl Hw).
    rewrite (parse_exhausted fuel json i (w :: ws) Hws Hsk Hi).
    rewrite char_at_end. change (Ascii.eqb NUL ",") with false. cbv iota.
    rewrite array_loop_S, Nat.ltb_irrefl. reflexivity.
Qed.

Lemma object_loop_at_end fuel (json : text) i ws res :
  all_space ws = true -> skipn i json = ws -> i <= length json ->
  object_loop (S (S fuel)) json res i = Some Exit.
Proof.
  intros Hws Hsk Hi. rewrite object_loop_S.
  destruct ws as [|w ws].
  - assert (Hge : (i <? length json) = false).
    { apply Nat.ltb_ge. apply (f_equal (@length ascii)) in Hsk.
      rewrite length_skipn in Hsk. simpl in Hsk. lia. }
    rewrite Hge. reflexivity.
  - destruct (skipn_head json i _ _ Hsk) as [Hc Hlt].
    pose proof Hws as Hw. simpl in Hw. apply andb_prop in Hw. destruct Hw as [Hw _].
    apply Nat.ltb_lt in Hlt. rewrite Hlt, Hc.
    rewrite (isspace_not w "}" eq_refl Hw).
    rewrite (parse_exhausted fuel json i (w :: ws) Hws Hsk Hi).
    rewrite char_at_end. change (Ascii.eqb NUL ":") with false. cbv iota.
    rewrite (parse_exhausted fuel json (length json) [] eq_refl);
      [|apply skipn_all|lia].
    change (is_string JNull) with false. cbv iota.
    rewrite char_at_end. change (Ascii.eqb NUL ",") with false. cbv iota.
    rewrite object_loop_S, Nat.ltb_irrefl. reflexivity.
Qed.

Section Unclosed.

Variable put : double -> text.

(** X16. An array that the buffer ends before closing, after any number
    of well laid out values and any white space, is not returned in
    part: [parse] gives Null and the cursor is back on the opening
    bracket. *)
Theorem unclosed_array_is_dropped pre items ws :
  well_laid_items put items ws = true ->
  all_space ws = true ->
  exists fuel,
    parse fuel (pre ++ "[" :: items_text put items ++ ws) (length pre)
    = Some (JNull, length pre).
Proof.
  intros Hok Hws.
  set (json := pre ++ "[" :: items_text put items ++ ws).
  assert (Hsk : skipn (length pre) json = "[" :: items_text put items ++ ws)
    by apply skipn_app_length.
  assert (Hsk1 : skipn (length pre + 1) json = items_text put items ++ ws).
  { apply (skipn_step json _ ["["%char]). exact Hsk. }
  destruct (array_items_steps put items _ json _ Hok Hsk1) as [n0 Hsteps].
  pose proof (skipn_step json _ _ _ Hsk1) as Hend.
  assert (Hle : length pre + 1 + length (items_text put items) <= length json).
  { unfold json. rewrite !length_app. cbn [length]. rewrite length_app. lia. }
  exists (S (length items + S (S n0))).
  rewrite (parse_open_bracket _ json (length pre) _ Hsk).
  rewrite Hsteps by lia.
  rewrite (array_loop_at_end n0 json _ ws _ Hws Hend Hle). reflexivity.
Qed.

(** X17. Likewise an object that the buffer ends before closing, after
    any number of well laid out entries and any white space: [parse]
    gives Null with the cursor back on the opening brace. *)
Theorem unclosed_object_is_dropped pre entries ws :
  well_laid_entries put entries ws = true ->
  all_space ws = true ->
  exists fuel,
    parse fuel (pre ++ "{" :: entries_text put entries ++ ws) (length pre)
    = Some (JNull, length pre).
Proof.
  intros Hok Hws.
  set (json := pre ++ "{" :: entries_text put entries ++ ws).
  assert (Hsk : skipn (length pre) json = "{" :: entries_text put entries ++ ws)
    by apply skipn_app_length.
  assert (Hsk1 : skipn (length pre + 1) json = entries_text put entries ++ ws).
  { apply (skipn_step json _ ["{"%char]). exact Hsk. }
  destruct (object_entries_steps put entries _ json _ Hok Hsk1) as [n0 Hsteps].
  pose proof (skipn_step json _ _ _ Hsk1) as Hend.
  assert (Hle : length pre + 1 + length (entries_text put entries) <= length json).
  { unfold json. rewrite !length_app. cbn [length]. rewrite length_app. lia. }
  exists (S (length entries + S (S n0))).
  rewrite (parse_open_brace _ json (length pre) _ Hsk).
  rewrite Hsteps by lia.
  rewrite (object_loop_at_end n0 json _ ws _ Hws Hend Hle). reflexivity.
Qed.

End Unclosed.

Lemma unclosed_array_is_dropped_witness :
  exists fuel, parse fuel (json_text "x[1, 'a', ") 1 = Some (JNull, 1).
Proof.
  exact (unclosed_array_is_dropped (fun d => d) (chars "x")
           [ {| item_space := []; item_value := JInt 1; item_comma := true |};
             {| item_space := chars " "; item_value := JString (chars "a");
                item_comma := true |} ]
           (chars " ") eq_refl eq_refl).
Defined.

Lemma unclosed_object_is_dropped_witness :
  exists fuel, parse fuel (json_text "{'a': [1]") 0 = Some (JNull, 0).
Proof.
  exact (unclosed_object_is_dropped (fun d => d) []
           [ {| entry_key_space := []; entry_key := chars "a";
                entry_colon := true; entry_value_space := chars " ";
                entry_value := JList [JInt 1]; entry_comma := false |} ]
           [] eq_refl eq_refl).
Defined.

(** ** The two conversions *)

(** X18. On a literal of the number pattern, [try_parse_int] accepts
    exactly when the literal has neither a point nor an exponent, and
    [try_parse_double] always accepts. *)
Theorem conversions_on_literals lit :
  number_literal lit ->
  fst (try_parse_int lit) = negb (has_point_or_exponent lit)
  /\ fst (try_parse_double lit) = true.
Proof.
  intros Hlit. split.
  - apply try_parse_int_literal. exact Hlit.
  - rewrite (try_parse_double_literal lit Hlit). reflexivity.
Qed.

Lemma conversions_on_literals_witness :
  number_literal (chars "+7.e-2")
  /\ fst (try_parse_int (chars "+7.e-2")) = false
  /\ fst (try_parse_double (chars "+7.e-2")) = true.
Proof.
  assert (H : number_literal (chars "+7.e-2")).
  { apply (proj1 (num_re_match_sound (chars "+7.e-2") 6 eq_refl)). }
  split; [exact H|]. exact (conversions_on_literals (chars "+7.e-2") H).
Defined.

(** X19. [try_parse_int] checks no range. Digits whose value is beyond
    [LONG_MAX] are accepted and stored as -1, the saturated [long]
    narrowed to [int]; after a minus sign, digits whose value is beyond
    the magnitude of [LONG_MIN] are accepted and stored as 0. *)
Theorem try_parse_int_saturates ds :
  all_digits ds = true -> ds <> [] ->
  ((LONG_MAX < digits_value 0 ds)%Z -> try_parse_int ds = (true, (-1)%Z))
  /\ ((- LONG_MIN < digits_value 0 ds)%Z ->
      try_parse_int ("-" :: ds) = (true, 0%Z)).
Proof.
  intros Hds Hne.
  assert (Hn : (length ds =? 0) = false).
  { destruct ds; [congruence|reflexivity]. }
  destruct ds as [|d ds'] eqn:Eds; [congruence|]. rewrite <- Eds in *.
  assert (Hd : isdigit d = true).
  { rewrite Eds in Hds. simpl in Hds. apply andb_prop in Hds. tauto. }
  split; intros Hbig; unfold try_parse_int, strtol.
  - rewrite (digits_not_space ds Hds Hne). cbn [skipn].
    assert (Hk : sign_len ds = 0).
    { rewrite Eds. cbn [sign_len]. rewrite (isdigit_not_sign d Hd). reflexivity. }
    assert (Hneg : negative ds = false).
    { rewrite Eds. cbn [negative].
      destruct (Ascii.eqb d "-") eqn:E; [|reflexivity].
      apply Ascii.eqb_eq in E. subst d. discriminate. }
    rewrite Hk, Hneg. cbn [skipn Nat.add].
    rewrite span_digits_all, Hn by assumption.
    unfold char_at. rewrite nth_overflow by lia.
    unfold clamp_long. apply Z.ltb_lt in Hbig. rewrite Hbig. reflexivity.
  - rewrite span_space_head by reflexivity. cbn [skipn sign_len negative].
    change (is_sign "-") with true. change (Ascii.eqb "-" "-") with true.
    cbv iota. cbn [skipn].
    rewrite span_digits_all, Hn by assumption.
    unfold char_at. cbn [Nat.add nth]. rewrite nth_overflow by lia.
    unfold clamp_long, LONG_MAX, LONG_MIN in *.
    destruct (Z.ltb_spec 9223372036854775807 (- digits_value 0 ds)); [lia|].
    destruct (Z.ltb_spec (- digits_value 0 ds) (-9223372036854775808)); [|lia].
    reflexivity.
Qed.

Lemma try_parse_int_saturates_witness :
  try_parse_int (chars "99999999999999999999") = (true, (-1)%Z)
  /\ try_parse_int (chars "-99999999999999999999") = (true, 0%Z).
Proof.
  destruct (try_parse_int_saturates (chars "99999999999999999999") eq_refl
              ltac:(discriminate)) as [Hmax Hmin].
  split; [apply Hmax|apply Hmin]; reflexivity.
Defined.

(** ** The same key more than once *)



